(** * compy: a table-driven lexer and a parser-combinator library

    A shallow embedding of [compy.py] and of the arithmetic grammar of
    [demo.py], followed by the properties of the lexer engine and of the
    combinator algebra.

    Conventions of the embedding.
    - A Python [str] is a [string]; [len], slicing [s[n:]] and
      [str.startswith] are [String.length], [str_from] and [String.prefix].
    - A Python call either returns a value or raises: [Py A].
    - A [dict] is an association list in insertion order, because the lexer
      iterates over [items()]: assigning to a key that is present keeps the
      key's position and replaces its value.
    - The [while] loops of the lexer and the recursion of a grammar through
      [lazy] are driven by a fuel argument; running out of fuel is [None] in
      the lexer and [RecursionError] in a recursive grammar.
    - [re.match] belongs to Python's standard library and is a parameter
      [re_match] of the lexer: [re_match pattern code] is [m.group(0)] when
      the pattern matches at the start of [code]. *)

From Stdlib Require Import Ascii String Arith Lia.
From Stdlib Require Import DecimalString DecimalNat DecimalFacts.
From stdpp Require Import base list strings.

Module Compy.

(** ** Python results *)

Inductive exn : Type :=
| IndexError
| AttributeError
| RecursionError.

Inductive Py (A : Type) : Type :=
| Return (a : A)
| Raise (e : exn).
Arguments Return {A} a.
Arguments Raise {A} e.

#[export] Instance Py_ret : MRet Py := fun _ a => Return a.
#[export] Instance Py_bind : MBind Py := fun _ _ k c =>
  match c with
  | Return a => k a
  | Raise e => Raise e
  end.

(** [l[i]] on a list: [IndexError] out of range. *)
Definition item {A} (l : list A) (i : nat) : Py A :=
  match l !! i with
  | Some x => Return x
  | None => Raise IndexError
  end.

(** ** Strings *)

(** [s[n:]] *)
Fixpoint str_from (n : nat) (s : string) : string :=
  match n, s with
  | 0, _ => s
  | S n', String _ s' => str_from n' s'
  | S _, EmptyString => EmptyString
  end.

(** ** Dictionaries in insertion order *)

Section Dict.
Context {K V : Type} `{EqDecision K}.

Definition dict : Type := list (K * V).

(** [d[k] = v] *)
Fixpoint dict_set (d : dict) (k : K) (v : V) : dict :=
  match d with
  | [] => [(k, v)]
  | (k', v') :: d' =>
      if decide (k' = k) then (k, v) :: d' else (k', v') :: dict_set d' k v
  end.

(** [d.get(k)] *)
Fixpoint dict_get (d : dict) (k : K) : option V :=
  match d with
  | [] => None
  | (k', v') :: d' => if decide (k' = k) then Some v' else dict_get d' k
  end.
End Dict.
Arguments dict : clear implicits.

(** ** Data model *)

Record Location : Type := { file : string; line : nat; column : nat }.

Section WithTokenTypes.
Context {TokenTypes_T : Type} `{EqDecision TokenTypes_T}.

(** [Token] is a dataclass with three fields; [EOF] is the subclass whose
    [__init__] sets none of them. *)
Inductive Token : Type :=
| Tok (type : TokenTypes_T) (value : string) (location : Location)
| EOF.

Definition Token_type (t : Token) : Py TokenTypes_T :=
  match t with
  | Tok type _ _ => Return type
  | EOF => Raise AttributeError
  end.

Definition Token_value (t : Token) : Py string :=
  match t with
  | Tok _ value _ => Return value
  | EOF => Raise AttributeError
  end.

Inductive LexingResult : Type :=
| Tokens (tokens : list Token)
| LexingError (location : Location) (message : string).

(** *** The lexer *)

Record Lexer : Type := {
  regexes : dict TokenTypes_T string;
  strings : dict TokenTypes_T string;
  regex_skips : list string;
  string_skips : list string
}.

(** [Lexer.__init__] *)
Definition Lexer_init : Lexer :=
  {| regexes := []; strings := []; regex_skips := []; string_skips := [] |}.

Definition add_regex (self : Lexer) (type : TokenTypes_T) (regex : string)
  : Lexer :=
  let regex := "^(" +:+ regex +:+ ")" in
  {| regexes := dict_set (regexes self) type regex;
     strings := strings self;
     regex_skips := regex_skips self;
     string_skips := string_skips self |}.

Definition add_str (self : Lexer) (type : TokenTypes_T) (string : string)
  : Lexer :=
  {| regexes := regexes self;
     strings := dict_set (strings self) type string;
     regex_skips := regex_skips self;
     string_skips := string_skips self |}.

Definition skip_regex (self : Lexer) (regex : string) : Lexer :=
  let regex := "^(" +:+ regex +:+ ")" in
  {| regexes := regexes self;
     strings := strings self;
     regex_skips := regex_skips self ++ [regex];
     string_skips := string_skips self |}.

Definition skip_string (self : Lexer) (string : string) : Lexer :=
  {| regexes := regexes self;
     strings := strings self;
     regex_skips := regex_skips self;
     string_skips := string_skips self ++ [string] |}.

Fixpoint _increment_location (line column : nat) (whole : string)
  : nat * nat :=
  match whole with
  | EmptyString => (line, column)
  | String char whole' =>
      if Ascii.eqb char "010"
      then _increment_location (line + 1) 1 whole'
      else _increment_location line (column + 1) whole'
  end.

Section WithRegex.
(** [re_match regex code]: [m.group(0)] of [re.match(regex, code)], or
    [None]. *)
Variable re_match : string -> string -> option string.

(** The variables the skip loop updates. *)
Record SkipState : Type := {
  skip_matched : bool;
  skip_line : nat;
  skip_column : nat;
  skip_code : string
}.

Definition skip_over (st : SkipState) (whole : string) : SkipState :=
  let '(line, column) :=
    _increment_location (skip_line st) (skip_column st) whole in
  {| skip_matched := true;
     skip_line := line;
     skip_column := column;
     skip_code := str_from (String.length whole) (skip_code st) |}.

(** Body of [for skip in self.regex_skips]. *)
Definition regex_skip_step (st : SkipState) (skip : string) : SkipState :=
  match re_match skip (skip_code st) with
  | None => st
  | Some whole => skip_over st whole
  end.

(** Body of [for skip in self.string_skips]. *)
Definition string_skip_step (st : SkipState) (skip : string) : SkipState :=
  if String.prefix skip (skip_code st) then skip_over st skip else st.

(** One pass of the [while True] loop of [_run_skips]. *)
Definition skip_pass (self : Lexer) (line column : nat) (code : string)
  : SkipState :=
  let st := {| skip_matched := false; skip_line := line;
               skip_column := column; skip_code := code |} in
  let st := foldl regex_skip_step st (regex_skips self) in
  foldl string_skip_step st (string_skips self).

Fixpoint _run_skips (fuel : nat) (self : Lexer) (line column : nat)
  (code : string) : option (nat * nat * string) :=
  match fuel with
  | 0 => None
  | S fuel' =>
      let st := skip_pass self line column code in
      if skip_matched st
      then _run_skips fuel' self (skip_line st) (skip_column st)
             (skip_code st)
      else Some (skip_line st, skip_column st, skip_code st)
  end.

(** The variables the main loop of [lex] updates. *)
Record LexState : Type := {
  lex_tokens : list Token;
  lex_line : nat;
  lex_column : nat;
  lex_code : string;
  lex_matched : bool
}.

(** The body shared by the two [for] loops of the match phase once a
    rule has matched [whole]. *)
Definition emit (file_path : string) (st : LexState)
  (type : TokenTypes_T) (whole : string) : LexState :=
  let loc := {| file := file_path; line := lex_line st;
                column := lex_column st |} in
  let '(line, column) :=
    _increment_location (lex_line st) (lex_column st) whole in
  {| lex_tokens := lex_tokens st ++ [Tok type whole loc];
     lex_line := line;
     lex_column := column;
     lex_code := str_from (String.length whole) (lex_code st);
     lex_matched := true |}.

(** [for type, regex in self.regexes.items()], left at the first match
    by [break]. *)
Fixpoint match_regexes (file_path : string)
  (items : list (TokenTypes_T * string)) (st : LexState) : LexState :=
  match items with
  | [] => st
  | (type, regex) :: items' =>
      match re_match regex (lex_code st) with
      | None => match_regexes file_path items' st
      | Some whole => emit file_path st type whole
      end
  end.

(** [for type, string in self.strings.items()], left at the first match
    by [break]. *)
Fixpoint match_strings (file_path : string)
  (items : list (TokenTypes_T * string)) (st : LexState) : LexState :=
  match items with
  | [] => st
  | (type, string) :: items' =>
      if String.prefix string (lex_code st)
      then emit file_path st type string
      else match_strings file_path items' st
  end.

(** Lines 119 to 143: [matched = False], then the loop over the
    patterns, then the loop over the literals. *)
Definition match_phase (self : Lexer) (file_path : string)
  (tokens : list Token) (line column : nat) (code : string) : LexState :=
  let st := {| lex_tokens := tokens; lex_line := line;
               lex_column := column; lex_code := code;
               lex_matched := false |} in
  let st := match_regexes file_path (regexes self) st in
  match_strings file_path (strings self) st.

(** The message of the error; [code] is not empty where it is built. *)
Definition invalid_character (code : string) : string :=
  "SYNTAX ERROR: Invalid character: '" +:+ String.substring 0 1 code
    +:+ "'".

(** The [while len(code) > 0] loop of [lex]. *)
Fixpoint lex_loop (fuel : nat) (self : Lexer) (file_path : string)
  (tokens : list Token) (line column : nat) (code : string)
  : option LexingResult :=
  match fuel with
  | 0 => None
  | S fuel' =>
      if String.length code =? 0 then Some (Tokens tokens)
      else
        match _run_skips fuel' self line column code with
        | None => None
        | Some (line, column, code) =>
            if String.length code <=? 0 then Some (Tokens tokens)
            else
              let st :=
                match_phase self file_path tokens line column code in
              if lex_matched st
              then lex_loop fuel' self file_path (lex_tokens st)
                     (lex_line st) (lex_column st) (lex_code st)
              else
                let loc := {| file := file_path; line := lex_line st;
                              column := lex_column st |} in
                Some (LexingError loc (invalid_character (lex_code st)))
        end
  end.

Definition lex (fuel : nat) (self : Lexer) (file_path code : string)
  : option LexingResult :=
  lex_loop fuel self file_path [] 1 1 code.
End WithRegex.

(** *** Parsing results *)

Inductive ParsingResult (ParserType_T : Type) : Type :=
| ParsingSuccess (value : ParserType_T) (rest : list Token)
| ParsingFailure (expected : list TokenTypes_T) (got : Token).
Arguments ParsingSuccess {ParserType_T} value rest.
Arguments ParsingFailure {ParserType_T} expected got.

Record Seq (ParserType_T ParserType_U : Type) : Type :=
  { left : ParserType_T; right : ParserType_U }.
Arguments Build_Seq {ParserType_T ParserType_U} left right.

(** *** Parsers *)

Record Parser (ParserType_T : Type) : Type :=
  { parse : list Token -> Py (ParsingResult ParserType_T) }.
Arguments Build_Parser {ParserType_T} parse.
Arguments parse {ParserType_T} p tokens.

(** [SeqParser] is the subclass of [Parser] whose values are [Seq]s; it
    adds [map]. *)
Definition SeqParser (ParserType_T ParserType_U : Type) : Type :=
  Parser (Seq ParserType_T ParserType_U).

Definition sequence_right {ParserType_T ParserType_U}
  (self : Parser ParserType_T) (parser : Parser ParserType_U)
  : Parser ParserType_U :=
  Build_Parser (fun tokens =>
    result1 ← parse self tokens;
    match result1 with
    | ParsingFailure exp got => mret (ParsingFailure exp got)
    | ParsingSuccess _ rest =>
        result2 ← parse parser rest;
        mret result2
    end).

Definition sequence_left {ParserType_T ParserType_U}
  (self : Parser ParserType_T) (parser : Parser ParserType_U)
  : Parser ParserType_T :=
  Build_Parser (fun tokens =>
    result1 ← parse self tokens;
    match result1 with
    | ParsingFailure exp got => mret (ParsingFailure exp got)
    | ParsingSuccess x rest =>
        result2 ← parse parser rest;
        match result2 with
        | ParsingFailure exp got => mret (ParsingFailure exp got)
        | ParsingSuccess _ rest => mret (ParsingSuccess x rest)
        end
    end).

Definition sequence {ParserType_T ParserType_U}
  (self : Parser ParserType_T) (parser : Parser ParserType_U)
  : SeqParser ParserType_T ParserType_U :=
  Build_Parser (fun tokens =>
    r1 ← parse self tokens;
    match r1 with
    | ParsingFailure exp got => mret (ParsingFailure exp got)
    | ParsingSuccess x rest =>
        r2 ← parse parser rest;
        match r2 with
        | ParsingFailure exp got => mret (ParsingFailure exp got)
        | ParsingSuccess y rest =>
            mret (ParsingSuccess (Build_Seq x y) rest)
        end
    end).

Definition alt {ParserType_T}
  (self : Parser ParserType_T) (parser : Parser ParserType_T)
  : Parser ParserType_T :=
  Build_Parser (fun tokens =>
    r1 ← parse self tokens;
    match r1 with
    | ParsingFailure exp1 _ =>
        r2 ← parse parser tokens;
        match r2 with
        | ParsingFailure exp2 got => mret (ParsingFailure (exp1 ++ exp2) got)
        | ParsingSuccess x rest => mret (ParsingSuccess x rest)
        end
    | ParsingSuccess x rest => mret (ParsingSuccess x rest)
    end).

(** [SeqParser.map] *)
Definition map {ParserType_T ParserType_U ParserType_V}
  (self : SeqParser ParserType_T ParserType_U)
  (mapper : ParserType_T -> ParserType_U -> ParserType_V)
  : Parser ParserType_V :=
  Build_Parser (fun tokens =>
    r ← parse self tokens;
    match r with
    | ParsingFailure exp got => mret (ParsingFailure exp got)
    | ParsingSuccess (Build_Seq a b) rest =>
        mret (ParsingSuccess (mapper a b) rest)
    end).

(** *** Primitives *)

Definition token {ParserType_T} (type : TokenTypes_T)
  (mapper : string -> ParserType_T) : Parser ParserType_T :=
  Build_Parser (fun tokens =>
    if length tokens =? 0 then mret (ParsingFailure [type] EOF)
    else
      t0 ← item tokens 0;
      ty ← Token_type t0;
      if decide (ty = type) then
        v ← Token_value t0;
        mret (ParsingSuccess (mapper v) (drop 1 tokens))
      else
        t1 ← item tokens 1;
        mret (ParsingFailure [type] t1)).

Definition singleton {ParserType_Invariant} (type : TokenTypes_T)
  (value : ParserType_Invariant) : Parser ParserType_Invariant :=
  Build_Parser (fun tokens =>
    if length tokens =? 0 then mret (ParsingFailure [type] EOF)
    else
      t0 ← item tokens 0;
      ty ← Token_type t0;
      if decide (ty = type) then
        mret (ParsingSuccess value (drop 1 tokens))
      else
        t0 ← item tokens 0;
        mret (ParsingFailure [type] t0)).

Definition lazy {ParserType_T} (parser_fn : unit -> Parser ParserType_T)
  : Parser ParserType_T :=
  Build_Parser (fun tokens => parse (parser_fn tt) tokens).

(** The value of [ignore] is Python's [None]: [tt]. *)
Definition ignore (type : TokenTypes_T) : Parser unit :=
  Build_Parser (fun tokens =>
    if length tokens =? 0 then mret (ParsingFailure [type] EOF)
    else
      t0 ← item tokens 0;
      ty ← Token_type t0;
      if decide (ty = type) then
        mret (ParsingSuccess tt (drop 1 tokens))
      else
        t0 ← item tokens 0;
        mret (ParsingFailure [type] t0)).

(** *** Parsers built from the primitives and the combinators *)

Inductive Built : forall {V : Type}, Parser V -> Prop :=
| Built_token {V} (type : TokenTypes_T) (mapper : string -> V) :
    Built (token type mapper)
| Built_singleton {V} (type : TokenTypes_T) (value : V) :
    Built (singleton type value)
| Built_ignore (type : TokenTypes_T) :
    Built (ignore type)
| Built_lazy {V} (parser_fn : unit -> Parser V) :
    Built (parser_fn tt) -> Built (lazy parser_fn)
| Built_sequence_right {U V} (a : Parser U) (b : Parser V) :
    Built a -> Built b -> Built (sequence_right a b)
| Built_sequence_left {U V} (a : Parser U) (b : Parser V) :
    Built a -> Built b -> Built (sequence_left a b)
| Built_sequence {U V} (a : Parser U) (b : Parser V) :
    Built a -> Built b -> Built (sequence a b)
| Built_alt {V} (a b : Parser V) :
    Built a -> Built b -> Built (alt a b)
| Built_map {U V W} (p : SeqParser U V) (mapper : U -> V -> W) :
    Built p -> Built (map p mapper).

(** *** Notions the properties of the lexer are stated with *)

(** [''.join(t.value for t in tokens)] *)
Fixpoint join_values (tokens : list Token) : Py string :=
  match tokens with
  | [] => Return EmptyString
  | t :: tokens' =>
      v ← Token_value t;
      vs ← join_values tokens';
      Return (v +:+ vs)
  end.

(** The text of the tokens lexed so far, followed by the text that
    remains, is the source. *)
Definition covers (source : string) (st : LexState) : Prop :=
  exists pre,
    join_values (lex_tokens st) = Return pre /\
    pre +:+ lex_code st = source.

(** A step of the skip loop leaves its variables as they are, or sets
    [skip_matched] and shortens the text. *)
Definition skip_progress (st st' : SkipState) : Prop :=
  st' = st \/
  (skip_matched st' = true /\
   String.length (skip_code st') < String.length (skip_code st)).

(** The same for a step of the match phase. *)
Definition lex_progress (st st' : LexState) : Prop :=
  st' = st \/
  (lex_matched st' = true /\
   String.length (lex_code st') < String.length (lex_code st)).

(** What [re.match] guarantees of [m.group(0)]: it is the part of [code]
    that the pattern matched, from the start of [code]. *)
Definition matches_at_start (re_match : string -> string -> option string)
  : Prop :=
  forall regex code whole,
    re_match regex code = Some whole -> String.prefix whole code = true.

(** A pattern that matches no empty text. *)
Definition never_empty (re_match : string -> string -> option string)
  (regex : string) : Prop :=
  forall code whole, re_match regex code = Some whole -> whole <> EmptyString.

(** A configuration none of whose rules can match the empty text. *)
Record productive (re_match : string -> string -> option string)
  (self : Lexer) : Prop := {
  productive_regex_skips :
    Forall (never_empty re_match) (regex_skips self);
  productive_string_skips :
    Forall (fun skip => skip <> EmptyString) (string_skips self);
  productive_regexes :
    Forall (fun item => never_empty re_match item.2) (regexes self);
  productive_strings :
    Forall (fun item => item.2 <> EmptyString) (strings self)
}.



(** A parser only consumes tokens from the front. *)
Definition consumes_front {V} (p : Parser V) : Prop :=
  forall (ts : list Token) v rest,
    parse p ts = Return (ParsingSuccess v rest) -> rest `suffix_of` ts.

(** *** Notions the positions of the lexer are stated with *)

(** The number of line feeds of a text. *)
Fixpoint newlines (whole : string) : nat :=
  match whole with
  | EmptyString => 0
  | String char whole' =>
      if Ascii.eqb char "010" then S (newlines whole') else newlines whole'
  end.

(** From [line], [column] and the text [code], the lexer gets to [line'],
    [column'] and [code'] by consuming a text from the front of [code]. *)
Definition reaches (line column : nat) (code : string)
  (line' column' : nat) (code' : string) : Prop :=
  exists text,
    code = text +:+ code' /\
    _increment_location line column text = (line', column').

(** The value of the token stands in [source] where the location of the
    token says, counted from line 1 and column 1. *)
Definition located (file_path source : string) (t : Token) : Prop :=
  match t with
  | Tok _ value loc =>
      exists before after,
        source = before +:+ value +:+ after /\
        loc = {| file := file_path;
                 line := (_increment_location 1 1 before).1;
                 column := (_increment_location 1 1 before).2 |}
  | EOF => False
  end.

(** The token comes from a rule of the configuration: its value is a match
    of the pattern registered for its type, or the literal registered for
    its type. *)
Definition from_rule (re_match : string -> string -> option string)
  (self : Lexer) (t : Token) : Prop :=
  match t with
  | Tok type value _ =>
      (exists regex code,
          (type, regex) ∈ regexes self /\ re_match regex code = Some value)
      \/ (type, value) ∈ strings self
  | EOF => False
  end.

(** No rule of the match phase applies to [code]. *)
Definition unmatched (re_match : string -> string -> option string)
  (self : Lexer) (code : string) : Prop :=
  Forall (fun item => re_match item.2 code = None) (regexes self) /\
  Forall (fun item => String.prefix item.2 code = false) (strings self).

(** No skip rule applies to [code]. *)
Definition unskippable (re_match : string -> string -> option string)
  (self : Lexer) (code : string) : Prop :=
  Forall (fun skip => re_match skip code = None) (regex_skips self) /\
  Forall (fun skip => String.prefix skip code = false) (string_skips self).

(** The main loop has got from the start of [source] to its current line,
    column and text, and every token so far stands where its location
    says. *)
Definition on_track (file_path source : string) (st : LexState) : Prop :=
  reaches 1 1 source (lex_line st) (lex_column st) (lex_code st) /\
  Forall (located file_path source) (lex_tokens st).

(** The configurations that the four registration methods make of a new
    lexer. *)
Inductive configured : Lexer -> Prop :=
| configured_init : configured Lexer_init
| configured_add_regex self type regex :
    configured self -> configured (add_regex self type regex)
| configured_add_str self type string :
    configured self -> configured (add_str self type string)
| configured_skip_regex self regex :
    configured self -> configured (skip_regex self regex)
| configured_skip_string self string :
    configured self -> configured (skip_string self string).

(** *** Notions the laws of the combinators are stated with *)

(** A token that has its three fields, as every token of the lexer has. *)
Definition proper (t : Token) : Prop :=
  match t with
  | Tok _ _ _ => True
  | EOF => False
  end.

(** What a parser built from the primitives and the combinators can
    answer on [ts]: a success that has consumed a token, a failure that
    names a type and an offending token of [ts], [EOF] on the empty list, or
    an exception on a list that is not empty, which is [IndexError] when
    the tokens are proper. *)
Definition regular {V} (ts : list Token) (r : Py (ParsingResult V)) : Prop :=
  match r with
  | Return (ParsingSuccess _ rest) =>
      rest `suffix_of` ts /\ length rest < length ts
  | Return (ParsingFailure exp got) =>
      exp <> [] /\ (got = EOF \/ got ∈ ts) /\ (ts = [] -> got = EOF)
  | Raise e => ts <> [] /\ (Forall proper ts -> e = IndexError)
  end.

End WithTokenTypes.
Arguments Token : clear implicits.
Arguments LexingResult : clear implicits.
Arguments Lexer : clear implicits.
Arguments LexState : clear implicits.
Arguments ParsingResult : clear implicits.
Arguments ParsingSuccess {TokenTypes_T ParserType_T} value rest.
Arguments ParsingFailure {TokenTypes_T ParserType_T} expected got.
Arguments Seq : clear implicits.
Arguments Build_Seq {ParserType_T ParserType_U} left right.
Arguments Parser : clear implicits.
Arguments SeqParser : clear implicits.
Arguments Build_Parser {TokenTypes_T ParserType_T} parse.
Arguments parse {TokenTypes_T ParserType_T} p tokens.

End Compy.

(** * demo.py: the arithmetic grammar *)

Module Demo.
Import Compy.

Inductive TokenType : Type :=
| Int
| Plus
| Times
| LeftParen
| RightParen.

#[export] Instance TokenType_eq_dec : EqDecision TokenType.
Proof. solve_decision. Defined.

(** ** The two patterns of the demo

    Characters are code points below 256. On these, [\d] is the class of the
    ten decimal digits and [\s] the class of the characters for which
    [str.isspace] holds; [C+] is greedy, so that [^(C+)] matches the longest
    run of characters of [C] at the start of the text, when it is not
    empty. *)

Definition is_digit (c : ascii) : bool :=
  let n := nat_of_ascii c in (48 <=? n) && (n <=? 57).

Definition is_space (c : ascii) : bool :=
  let n := nat_of_ascii c in
  ((9 <=? n) && (n <=? 13)) || ((28 <=? n) && (n <=? 32))
  || (n =? 133) || (n =? 160).

Fixpoint run (class : ascii -> bool) (code : string) : string :=
  match code with
  | EmptyString => EmptyString
  | String c code' =>
      if class c then String c (run class code') else EmptyString
  end.

Definition match_run (class : ascii -> bool) (code : string)
  : option string :=
  match run class code with
  | EmptyString => None
  | whole => Some whole
  end.

(** [re.match] on the patterns the demo registers. *)
Definition re_match (regex code : string) : option string :=
  if String.eqb regex "^(\d+)" then match_run is_digit code
  else if String.eqb regex "^(\s+)" then match_run is_space code
  else None.

(** ** The lexer of the demo *)

Definition lexer : Lexer TokenType :=
  let lexer := Lexer_init in
  let lexer := add_regex lexer Int "\d+" in
  let lexer := add_str lexer Plus "+" in
  let lexer := add_str lexer Times "*" in
  let lexer := add_str lexer LeftParen "(" in
  let lexer := add_str lexer RightParen ")" in
  skip_regex lexer "\s+".

(** ** The syntax tree *)

Inductive ExprNode : Type :=
| IntNode (value : string)
| TimesNode (left right : ExprNode)
| PlusNode (left right : ExprNode).

Definition int_node (n : string) : ExprNode := IntNode n.
Definition plus_node (l r : ExprNode) : ExprNode := PlusNode l r.
Definition times_node (l r : ExprNode) : ExprNode := TimesNode l r.

(** ** The grammar

    Every cycle of the grammar goes through [expr_parser]; the rules below
    it are written over the parser they refer to by that name. *)

Section Grammar.
Variable expr_parser : Parser TokenType ExprNode.

Definition int_parser : Parser TokenType ExprNode := token Int int_node.

(** [int_parser | (ignore(LeftParen) >> expr_parser << ignore(RightParen))] *)
Definition atom_parser : Parser TokenType ExprNode :=
  alt int_parser
    (sequence_left (sequence_right (ignore LeftParen) expr_parser)
       (ignore RightParen)).

(** [lazy(lambda: ((atom_parser << ignore(Times)) ^ atom_parser)
                     .map(times_node))] *)
Definition times_parser : Parser TokenType ExprNode :=
  lazy (fun _ =>
    map (sequence (sequence_left atom_parser (ignore Times)) atom_parser)
      times_node).

(** [times_parser | atom_parser] *)
Definition term_parser : Parser TokenType ExprNode :=
  alt times_parser atom_parser.

(** [lazy(lambda: ((term_parser << ignore(Plus)) ^ term_parser)
                     .map(plus_node))] *)
Definition plus_parser : Parser TokenType ExprNode :=
  lazy (fun _ =>
    map (sequence (sequence_left term_parser (ignore Plus)) term_parser)
      plus_node).
End Grammar.

(** [lazy(lambda: plus_parser | term_parser)]; [fuel] bounds the nesting of
    the calls of [expr_parser] within one another. *)
Fixpoint expr_parser (fuel : nat) : Parser TokenType ExprNode :=
  match fuel with
  | 0 => Build_Parser (fun _ => Raise RecursionError)
  | S fuel' =>
      lazy (fun _ =>
        alt (plus_parser (expr_parser fuel')) (term_parser (expr_parser fuel')))
  end.

(** ** Evaluation *)

(** [int(n)] on a string of decimal digits; [None] on any other string. *)
Definition digit_value (c : ascii) : option Z :=
  if is_digit c then Some (Z.of_nat (nat_of_ascii c) - 48)%Z else None.

Fixpoint int_from (acc : Z) (n : string) : option Z :=
  match n with
  | EmptyString => Some acc
  | String c n' =>
      match digit_value c with
      | Some d => int_from (10 * acc + d)%Z n'
      | None => None
      end
  end.

Definition int (n : string) : option Z :=
  match n with
  | EmptyString => None
  | _ => int_from 0%Z n
  end.

Fixpoint eval_expr (node : ExprNode) : option Z :=
  match node with
  | IntNode n => int n
  | TimesNode l r =>
      match eval_expr l, eval_expr r with
      | Some a, Some b => Some (a * b)%Z
      | _, _ => None
      end
  | PlusNode l r =>
      match eval_expr l, eval_expr r with
      | Some a, Some b => Some (a + b)%Z
      | _, _ => None
      end
  end.

Definition code : string := "1 * (2 + 3)".

(** Where [lex("<stdin>", ...)] puts a token of the first line. *)
Definition at_column (n : nat) : Location :=
  {| file := "<stdin>"; line := 1; column := n |}.


(** ** Notions the properties of the demo are stated with *)




End Demo.

(** * c.py: names for C

    Characters are code points below 256, as in the demo. *)

Module C.

(** [char.isalpha()]: the letters of the Latin alphabet, the two ordinal
    indicators, the micro sign and the accented letters of Latin-1. *)
Definition isalpha (char : ascii) : bool :=
  let n := nat_of_ascii char in
  ((65 <=? n) && (n <=? 90)) || ((97 <=? n) && (n <=? 122))
  || (n =? 170) || (n =? 181) || (n =? 186)
  || ((192 <=? n) && (n <=? 214)) || ((216 <=? n) && (n <=? 246))
  || ((248 <=? n) && (n <=? 255)).

(** [str(n)], as the f-string formats [ord(char)]: the decimal digits of
    [n]. *)
Definition str (n : nat) : string :=
  NilEmpty.string_of_uint (Nat.to_uint n).

(** The body of [for char in name]. *)
Definition to_c_name_step (new : string) (char : ascii) : string :=
  if isalpha char then new +:+ String char EmptyString
  else if Ascii.eqb char "_" then new +:+ String char EmptyString
  else new +:+ ("_" +:+ str (nat_of_ascii char)).

Fixpoint to_c_name_loop (new name : string) : string :=
  match name with
  | EmptyString => new
  | String char name' => to_c_name_loop (to_c_name_step new char) name'
  end.

Definition to_c_name (name : string) : string :=
  to_c_name_loop EmptyString name.

Record C_Identifier : Type := { name : string }.

(** [C_Identifier.__init__] *)
Definition C_Identifier_init (name : string) : C_Identifier :=
  {| name := to_c_name name |}.

Definition as_code (self : C_Identifier) : string := name self.

(** ** Notions the properties of the names are stated with *)

(** Every character of the string satisfies [P]. *)
Fixpoint all_chars (P : ascii -> bool) (s : string) : bool :=
  match s with
  | EmptyString => true
  | String c s' => P c && all_chars P s'
  end.

(** A character that [to_c_name] keeps. *)
Definition kept (char : ascii) : bool :=
  isalpha char || Ascii.eqb char "_".

(** What [to_c_name] adds to the new name for one character. *)
Definition c_text (char : ascii) : string :=
  if kept char then String char EmptyString
  else String "_" (str (nat_of_ascii char)).

(** A character of a new name: a letter, the underscore or a digit. *)
Definition c_char (char : ascii) : bool :=
  kept char || Demo.is_digit char.

(** The string does not start with a digit. *)
Definition no_digit_first (s : string) : Prop :=
  match s with
  | EmptyString => True
  | String c _ => Demo.is_digit c = false
  end.

End C.

Import Compy Demo.

(** * The combinator algebra *)

Section Combinators.
Context {TokenTypes_T : Type} `{EqDecision TokenTypes_T}.

Abbreviation Token := (Token TokenTypes_T).
Abbreviation Parser := (Parser TokenTypes_T).

(** Splits on the result of a sub-parser that a combinator has run. *)
Ltac run_parser p ts :=
  let Hr := fresh "Hr" in
  destruct (parse p ts) as [[? ?|? ?]|?] eqn:Hr; simpl in *;
  try discriminate.

(** The three leaves succeed on the tail of their input only. *)
Ltac leaf_front :=
  let ts := fresh "ts" in
  intros ts ? ?; simpl;
  destruct ts as [|[? ? ?|] ts]; simpl; try discriminate;
  match goal with
  | |- context [decide (?a = ?b)] => destruct (decide (a = b)); simpl
  end;
  [ intros [= _ <-]; apply suffix_cons_r; reflexivity
  | try discriminate; destruct ts; simpl; discriminate ].

Lemma token_consumes_front {V} (type : TokenTypes_T) (mapper : string -> V) :
  consumes_front (token type mapper).
Proof. leaf_front. Qed.

Lemma singleton_consumes_front {V} (type : TokenTypes_T) (value : V) :
  consumes_front (singleton type value).
Proof. leaf_front. Qed.

Lemma ignore_consumes_front (type : TokenTypes_T) : consumes_front (ignore type).
Proof. leaf_front. Qed.

Lemma lazy_consumes_front {V} (parser_fn : unit -> Parser V) :
  consumes_front (parser_fn tt) -> consumes_front (lazy parser_fn).
Proof. intros Hp ts v rest. simpl. apply Hp. Qed.

Lemma sequence_right_consumes_front {U V} (a : Parser U) (b : Parser V) :
  consumes_front a -> consumes_front b ->
  consumes_front (sequence_right a b).
Proof.
  intros Ha Hb ts v rest. simpl.
  run_parser a ts.
  match goal with
  | H : parse a ts = Return (ParsingSuccess _ ?r) |- _ =>
      apply Ha in H; run_parser b r
  end.
  intros [= <- <-]. etrans; [eapply Hb|]; eassumption.
Qed.

Lemma sequence_left_consumes_front {U V} (a : Parser U) (b : Parser V) :
  consumes_front a -> consumes_front b ->
  consumes_front (sequence_left a b).
Proof.
  intros Ha Hb ts v rest. simpl.
  run_parser a ts.
  match goal with
  | H : parse a ts = Return (ParsingSuccess _ ?r) |- _ =>
      apply Ha in H; run_parser b r
  end.
  intros [= <- <-]. etrans; [eapply Hb|]; eassumption.
Qed.

Lemma sequence_consumes_front {U V} (a : Parser U) (b : Parser V) :
  consumes_front a -> consumes_front b ->
  consumes_front (sequence a b).
Proof.
  intros Ha Hb ts v rest. simpl.
  run_parser a ts.
  match goal with
  | H : parse a ts = Return (ParsingSuccess _ ?r) |- _ =>
      apply Ha in H; run_parser b r
  end.
  intros [= <- <-]. etrans; [eapply Hb|]; eassumption.
Qed.

Lemma alt_consumes_front {V} (a b : Parser V) :
  consumes_front a -> consumes_front b -> consumes_front (alt a b).
Proof.
  intros Ha Hb ts v rest. simpl.
  run_parser a ts.
  - intros [= <- <-]. eapply Ha; eassumption.
  - run_parser b ts. intros [= <- <-]. eapply Hb; eassumption.
Qed.

Lemma map_consumes_front {U V W} (p : SeqParser TokenTypes_T U V)
    (mapper : U -> V -> W) :
  consumes_front p -> consumes_front (map p mapper).
Proof.
  intros Hp ts v rest. simpl.
  run_parser p ts.
  match goal with
  | s : Seq _ _ |- _ => destruct s
  end.
  simpl. intros [= <- <-]. eapply Hp; eassumption.
Qed.

(** C7: whenever a parser built from the primitives and the combinators
    succeeds, the tokens it leaves are a suffix of the tokens it was
    given. *)
Theorem Built_rest_suffix {V} (p : Parser V) :
  Built p ->
  forall (ts : list Token) v rest,
    parse p ts = Return (ParsingSuccess v rest) -> rest `suffix_of` ts.
Proof.
  intros Hp. change (consumes_front p).
  induction Hp;
    eauto using token_consumes_front, singleton_consumes_front,
      ignore_consumes_front, lazy_consumes_front,
      sequence_right_consumes_front, sequence_left_consumes_front,
      sequence_consumes_front, alt_consumes_front, map_consumes_front.
Qed.

(** C5: [a.alt(b)] returns the success of [a] whatever [b] is; when [a]
    fails it returns the success of [b] on the same tokens; when both
    fail it returns one failure, whose expected list is the one of [a]
    followed by the one of [b] and whose offending token is the one of
    [b]. *)
Theorem alt_parse {V} (a b : Parser V) (ts : list Token) :
  (forall x rest,
      parse a ts = Return (ParsingSuccess x rest) ->
      parse (alt a b) ts = Return (ParsingSuccess x rest)) /\
  (forall exp1 got1 x rest,
      parse a ts = Return (ParsingFailure exp1 got1) ->
      parse b ts = Return (ParsingSuccess x rest) ->
      parse (alt a b) ts = Return (ParsingSuccess x rest)) /\
  (forall exp1 got1 exp2 got2,
      parse a ts = Return (ParsingFailure exp1 got1) ->
      parse b ts = Return (ParsingFailure exp2 got2) ->
      parse (alt a b) ts = Return (ParsingFailure (exp1 ++ exp2) got2)).
Proof.
  repeat split.
  - intros x rest Ha. simpl. rewrite Ha. reflexivity.
  - intros exp1 got1 x rest Ha Hb. simpl. rewrite Ha. simpl.
    rewrite Hb. reflexivity.
  - intros exp1 got1 exp2 got2 Ha Hb. simpl. rewrite Ha. simpl.
    rewrite Hb. reflexivity.
Qed.

(** C9: on a token list whose head has another type, [singleton] and
    [ignore] fail with the expected type and the head token, also when
    the head is the only token. *)
Theorem singleton_ignore_mismatch {V} (type ty : TokenTypes_T) (v : V)
    (val : string) (loc : Location) (tl : list Token) :
  ty <> type ->
  parse (singleton type v) (Tok ty val loc :: tl)
    = Return (ParsingFailure [type] (Tok ty val loc)) /\
  parse (ignore type) (Tok ty val loc :: tl)
    = Return (ParsingFailure [type] (Tok ty val loc)).
Proof.
  intros Hty. simpl.
  destruct (decide (ty = type)); [contradiction|]. split; reflexivity.
Qed.
End Combinators.

(** ** The combinators on the tokens of the demo *)

Lemma Built_rest_suffix_witness :
  parse (sequence_left (token Int int_node) (ignore Plus))
    [Tok Int "1" (at_column 1); Tok Plus "+" (at_column 2);
     Tok Int "2" (at_column 3)]
    = Return (ParsingSuccess (IntNode "1") [Tok Int "2" (at_column 3)]) /\
  [Tok Int "2" (at_column 3)] `suffix_of`
    [Tok Int "1" (at_column 1); Tok Plus "+" (at_column 2);
     Tok Int "2" (at_column 3)].
Proof.
  split; [reflexivity|].
  apply (Built_rest_suffix (sequence_left (token Int int_node) (ignore Plus))
           (Built_sequence_left _ _ (Built_token Int int_node)
              (Built_ignore Plus))
           _ (IntNode "1")).
  reflexivity.
Defined.

Lemma alt_parse_witness :
  parse (alt (singleton Plus 1) (singleton Times 2)) [Tok Plus "+" (at_column 1)]
    = Return (ParsingSuccess 1 []) /\
  parse (alt (singleton Plus 1) (singleton Times 2)) [Tok Times "*" (at_column 1)]
    = Return (ParsingSuccess 2 []) /\
  parse (alt (singleton Plus 1) (singleton Times 2)) [Tok Int "7" (at_column 1)]
    = Return (ParsingFailure [Plus; Times] (Tok Int "7" (at_column 1))).
Proof.
  split; [|split].
  - apply (proj1 (alt_parse (singleton Plus 1) (singleton Times 2) _)).
    reflexivity.
  - apply (proj1 (proj2 (alt_parse (singleton Plus 1) (singleton Times 2) _))
             [Plus] (Tok Times "*" (at_column 1))); reflexivity.
  - apply (proj2 (proj2 (alt_parse (singleton Plus 1) (singleton Times 2) _))
             [Plus] (Tok Int "7" (at_column 1)) [Times]); reflexivity.
Defined.

Lemma singleton_ignore_mismatch_witness :
  parse (singleton RightParen 0) [Tok Plus "+" (at_column 1)]
    = Return (ParsingFailure [RightParen] (Tok Plus "+" (at_column 1))) /\
  parse (ignore RightParen) [Tok Plus "+" (at_column 1)]
    = Return (ParsingFailure [RightParen] (Tok Plus "+" (at_column 1))).
Proof.
  apply (singleton_ignore_mismatch RightParen Plus 0 "+" (at_column 1) []).
  discriminate.
Defined.

(** The two cases of [token] that do not depend on the rest of the list. *)
Lemma token_empty_or_matching `{EqDecision TokenTypes_T} {V}
    (type : TokenTypes_T) (mapper : string -> V) :
  parse (token type mapper) [] = Return (ParsingFailure [type] EOF) /\
  forall val loc tl,
    parse (token type mapper) (Tok type val loc :: tl)
      = Return (ParsingSuccess (mapper val) tl).
Proof.
  split; [reflexivity|]. intros val loc tl. simpl.
  destruct (decide (type = type)); [reflexivity|contradiction].
Qed.


(** C1: where the head token has another type, [token] reports the second
    token of the list, and raises [IndexError] when there is none. *)
Theorem token_mismatch_reports_second :
  parse (token Int int_node) [Tok Plus "+" (at_column 1)]
    = Raise IndexError /\
  parse (token Int int_node)
    [Tok Plus "+" (at_column 1); Tok Int "1" (at_column 2)]
    = Return (ParsingFailure [Int] (Tok Int "1" (at_column 2))).
Proof. split; reflexivity. Qed.

(** C2: the grammar of the demo, which is built from the primitives and the
    combinators, raises [IndexError] on the tokens of the text [+]. *)
Theorem expr_parser_raises (fuel : nat) :
  lex re_match (2 + fuel) lexer "<stdin>" "+"
    = Some (Tokens [Tok Plus "+" (at_column 1)]) /\
  parse (expr_parser (1 + fuel)) [Tok Plus "+" (at_column 1)]
    = Raise IndexError /\
  Built (alt int_parser (singleton Plus (IntNode "0"))) /\
  parse (alt int_parser (singleton Plus (IntNode "0")))
    [Tok Plus "+" (at_column 1)]
    = Raise IndexError.
Proof.
  repeat split.
  apply Built_alt; [apply Built_token|apply Built_singleton].
Qed.

(** * The lexer *)

(** ** Slices and prefixes *)

Lemma str_from_length (n : nat) (s : string) :
  String.length (str_from n s) = String.length s - n.
Proof.
  revert s; induction n as [|n IH]; intros s; simpl.
  - lia.
  - destruct s as [|c s]; simpl; [reflexivity|apply IH].
Qed.

Lemma prefix_str_from (w s : string) :
  String.prefix w s = true -> w +:+ str_from (String.length w) s = s.
Proof.
  revert s; induction w as [|c w IH]; intros s; simpl; [reflexivity|].
  destruct s as [|d s]; simpl; [discriminate|].
  destruct (ascii_dec c d) as [Hcd|]; [|discriminate].
  intros Hp. rewrite Hcd.
  change (String d (w +:+ str_from (String.length w) s) = String d s).
  f_equal. apply IH, Hp.
Qed.

Lemma append_length (a b : string) :
  String.length (a +:+ b) = String.length a + String.length b.
Proof.
  induction a as [|x a IH]; [reflexivity|].
  change (S (String.length (a +:+ b)) = S (String.length a + String.length b)).
  now rewrite IH.
Qed.

Lemma prefix_length (w s : string) :
  String.prefix w s = true -> String.length w <= String.length s.
Proof.
  intros Hp. apply prefix_str_from in Hp.
  rewrite <- Hp, append_length. lia.
Qed.

Lemma length_zero_empty (s : string) :
  String.length s = 0 -> s = EmptyString.
Proof. destruct s; [reflexivity|discriminate]. Qed.

Lemma nonempty_length (s : string) :
  s <> EmptyString -> 0 < String.length s.
Proof. destruct s; [congruence|simpl; lia]. Qed.

Lemma append_empty_r (s : string) : s +:+ EmptyString = s.
Proof.
  induction s as [|c s IH]; [reflexivity|].
  change (String c (s +:+ EmptyString) = String c s). now rewrite IH.
Qed.

Lemma append_assoc (a b c : string) : (a +:+ b) +:+ c = a +:+ (b +:+ c).
Proof.
  induction a as [|x a IH]; [reflexivity|].
  change (String x ((a +:+ b) +:+ c) = String x (a +:+ (b +:+ c))).
  now rewrite IH.
Qed.

Section Lexing.
Context {TokenTypes_T : Type} `{EqDecision TokenTypes_T}.
Variable re_match : string -> string -> option string.
Hypothesis re_match_prefix : matches_at_start re_match.

Abbreviation Token := (Token TokenTypes_T).
Abbreviation Lexer := (Lexer TokenTypes_T).
Abbreviation LexState := (LexState TokenTypes_T).

(** ** The text of the tokens *)

Lemma join_values_snoc (tokens : list Token) pre type whole loc :
  join_values tokens = Return pre ->
  join_values (tokens ++ [Tok type whole loc]) = Return (pre +:+ whole).
Proof.
  revert pre; induction tokens as [|t tokens IH]; intros pre; simpl.
  - intros [= <-]. now rewrite append_empty_r.
  - destruct (Token_value t) as [v|]; simpl; [|discriminate].
    destruct (join_values tokens) as [vs|]; simpl; [|discriminate].
    intros [= <-]. rewrite (IH vs eq_refl). simpl.
    now rewrite append_assoc.
Qed.

Lemma emit_covers source file_path (st : LexState) type whole :
  String.prefix whole (lex_code st) = true ->
  covers source st -> covers source (emit file_path st type whole).
Proof.
  intros Hp (pre & Hj & Hs). unfold emit.
  destruct (_increment_location _ _ _) as [l c].
  exists (pre +:+ whole); simpl; split.
  - now apply join_values_snoc.
  - now rewrite append_assoc, prefix_str_from.
Qed.

Lemma match_regexes_covers source file_path items (st : LexState) :
  covers source st ->
  covers source (match_regexes re_match file_path items st).
Proof.
  intros Hc. induction items as [|[type regex] items IH]; simpl; [exact Hc|].
  destruct (re_match regex (lex_code st)) as [whole|] eqn:Hm; [|exact IH].
  apply emit_covers; [|exact Hc]. eapply re_match_prefix, Hm.
Qed.

Lemma match_strings_covers source file_path items (st : LexState) :
  covers source st -> covers source (match_strings file_path items st).
Proof.
  intros Hc. induction items as [|[type lit] items IH]; simpl; [exact Hc|].
  destruct (String.prefix lit (lex_code st)) eqn:Hp; [|exact IH].
  now apply emit_covers.
Qed.

Lemma run_skips_no_rules fuel (self : Lexer) line column code r :
  regex_skips self = [] -> string_skips self = [] ->
  _run_skips re_match fuel self line column code = Some r ->
  r = (line, column, code).
Proof.
  intros Hr Hs. destruct fuel as [|fuel]; simpl; [discriminate|].
  unfold skip_pass. rewrite Hr, Hs. simpl. now intros [= <-].
Qed.

Lemma lex_loop_covers source fuel (self : Lexer) file_path tokens line column
    code toks :
  regex_skips self = [] -> string_skips self = [] ->
  (exists pre, join_values tokens = Return pre /\ pre +:+ code = source) ->
  lex_loop re_match fuel self file_path tokens line column code
    = Some (Tokens toks) ->
  join_values toks = Return source.
Proof.
  intros Hr Hs.
  revert tokens line column code.
  induction fuel as [|fuel IH]; intros tokens line column code;
    simpl; [discriminate|].
  intros (pre & Hj & Hsrc).
  destruct (String.length code =? 0) eqn:Hlen.
  { apply Nat.eqb_eq, length_zero_empty in Hlen. subst code.
    rewrite append_empty_r in Hsrc. subst pre. now intros [= <-]. }
  destruct (_run_skips re_match fuel self line column code)
    as [[[l c] code']|] eqn:Hskip; [|discriminate].
  apply (run_skips_no_rules _ _ _ _ _ _ Hr Hs) in Hskip.
  injection Hskip as -> -> ->.
  destruct (String.length code <=? 0) eqn:Hle.
  { apply Nat.leb_le in Hle. apply Nat.eqb_neq in Hlen. lia. }
  set (st := match_phase re_match self file_path tokens line column code).
  assert (Hc : covers source st).
  { apply match_strings_covers, match_regexes_covers.
    exists pre; simpl; split; assumption. }
  destruct (lex_matched st); [|discriminate].
  apply IH. exact Hc.
Qed.

(** C10: with no skip rule registered, the values of the tokens that
    [lex] returns, put end to end, are the source. *)
Theorem lex_values_are_source (fuel : nat) (self : Lexer)
    (file_path source : string) (toks : list Token) :
  regex_skips self = [] -> string_skips self = [] ->
  lex re_match fuel self file_path source = Some (Tokens toks) ->
  join_values toks = Return source.
Proof.
  intros Hr Hs. apply lex_loop_covers; [assumption..|].
  exists EmptyString. split; reflexivity.
Qed.
End Lexing.

(** ** Termination *)

Lemma run_skips_step `{EqDecision TokenTypes_T} re_match fuel
    (self : Compy.Lexer TokenTypes_T) line column code :
  _run_skips re_match (S fuel) self line column code
    = if skip_matched (skip_pass re_match self line column code)
      then _run_skips re_match fuel self
             (skip_line (skip_pass re_match self line column code))
             (skip_column (skip_pass re_match self line column code))
             (skip_code (skip_pass re_match self line column code))
      else Some (skip_line (skip_pass re_match self line column code),
                 skip_column (skip_pass re_match self line column code),
                 skip_code (skip_pass re_match self line column code)).
Proof. reflexivity. Qed.

Section Termination.
Context {TokenTypes_T : Type} `{EqDecision TokenTypes_T}.
Variable re_match : string -> string -> option string.
Hypothesis re_match_prefix : matches_at_start re_match.
Variable self : Lexer TokenTypes_T.
Hypothesis self_productive : productive re_match self.

Lemma skip_progress_trans (a b c : SkipState) :
  skip_progress a b -> skip_progress b c -> skip_progress a c.
Proof.
  intros [->|[Hm Hl]] [->|[Hm' Hl']]; unfold skip_progress; auto.
  right; split; [assumption|lia].
Qed.

Lemma skip_over_progress (st : SkipState) whole :
  String.prefix whole (skip_code st) = true -> whole <> EmptyString ->
  skip_progress st (skip_over st whole).
Proof.
  intros Hp Hne. right. unfold skip_over.
  destruct (_increment_location _ _ _) as [l c]; simpl.
  split; [reflexivity|]. rewrite str_from_length.
  apply prefix_length in Hp. apply nonempty_length in Hne. lia.
Qed.

Lemma regex_skips_progress (skips : list string) (st : SkipState) :
  Forall (never_empty re_match) skips ->
  skip_progress st (foldl (regex_skip_step re_match) st skips).
Proof.
  intros Hall; revert st.
  induction Hall as [|skip skips Hskip _ IH]; intros st; simpl.
  - now left.
  - eapply skip_progress_trans; [|apply IH].
    unfold regex_skip_step.
    destruct (re_match skip (skip_code st)) as [whole|] eqn:Hm; [|now left].
    apply skip_over_progress; [eapply re_match_prefix|eapply Hskip]; exact Hm.
Qed.

Lemma string_skips_progress (skips : list string) (st : SkipState) :
  Forall (fun skip => skip <> EmptyString) skips ->
  skip_progress st (foldl string_skip_step st skips).
Proof.
  intros Hall; revert st.
  induction Hall as [|skip skips Hskip _ IH]; intros st; simpl.
  - now left.
  - eapply skip_progress_trans; [|apply IH].
    unfold string_skip_step.
    destruct (String.prefix skip (skip_code st)) eqn:Hp; [|now left].
    now apply skip_over_progress.
Qed.

Lemma skip_pass_progress line column code :
  let st := skip_pass re_match self line column code in
  (skip_matched st = true -> String.length (skip_code st) < String.length code)
  /\ String.length (skip_code st) <= String.length code.
Proof.
  destruct self_productive as [Hrs Hss _ _].
  set (st0 := {| skip_matched := false; skip_line := line;
                 skip_column := column; skip_code := code |}).
  assert (Hp : skip_progress st0 (skip_pass re_match self line column code)).
  { eapply skip_progress_trans;
      [apply regex_skips_progress, Hrs|apply string_skips_progress, Hss]. }
  simpl. destruct Hp as [->|[_ Hl]]; simpl in *.
  - split; [discriminate|lia].
  - split; [intros _; exact Hl|lia].
Qed.

Lemma run_skips_terminates fuel line column code :
  String.length code < fuel ->
  exists line' column' code',
    _run_skips re_match fuel self line column code
      = Some (line', column', code') /\
    String.length code' <= String.length code.
Proof.
  revert line column code.
  induction fuel as [|fuel IH]; intros line column code Hfuel; [lia|].
  simpl.
  destruct (skip_pass_progress line column code) as [Hlt Hle].
  destruct (skip_matched (skip_pass re_match self line column code)).
  - specialize (Hlt eq_refl).
    destruct (IH (skip_line (skip_pass re_match self line column code))
                 (skip_column (skip_pass re_match self line column code))
                 (skip_code (skip_pass re_match self line column code)))
      as (l & c & code' & Hrun & Hlen); [lia|].
    exists l, c, code'. split; [exact Hrun|lia].
  - eauto.
Qed.

Lemma lex_progress_trans (a b c : LexState TokenTypes_T) :
  lex_progress a b -> lex_progress b c -> lex_progress a c.
Proof.
  intros [->|[Hm Hl]] [->|[Hm' Hl']]; unfold lex_progress; auto.
  right; split; [assumption|lia].
Qed.

Lemma emit_progress file_path (st : LexState TokenTypes_T) type whole :
  String.prefix whole (lex_code st) = true -> whole <> EmptyString ->
  lex_progress st (emit file_path st type whole).
Proof.
  intros Hp Hne. right. unfold emit.
  destruct (_increment_location _ _ _) as [l c]; simpl.
  split; [reflexivity|]. rewrite str_from_length.
  apply prefix_length in Hp. apply nonempty_length in Hne. lia.
Qed.

Lemma match_regexes_progress file_path items (st : LexState TokenTypes_T) :
  Forall (fun item => never_empty re_match item.2) items ->
  lex_progress st (match_regexes re_match file_path items st).
Proof.
  induction 1 as [|[type regex] items Hitem _ IH]; simpl; [now left|].
  destruct (re_match regex (lex_code st)) as [whole|] eqn:Hm; [|exact IH].
  apply emit_progress; [eapply re_match_prefix|eapply Hitem]; exact Hm.
Qed.

Lemma match_strings_progress file_path items (st : LexState TokenTypes_T) :
  Forall (fun item : TokenTypes_T * string => item.2 <> EmptyString) items ->
  lex_progress st (match_strings file_path items st).
Proof.
  induction 1 as [|[type lit] items Hitem _ IH]; simpl; [now left|].
  destruct (String.prefix lit (lex_code st)) eqn:Hp; [|exact IH].
  now apply emit_progress.
Qed.

Lemma match_phase_progress file_path tokens line column code :
  let st := match_phase re_match self file_path tokens line column code in
  lex_matched st = true -> String.length (lex_code st) < String.length code.
Proof.
  destruct self_productive as [_ _ Hr Hs].
  set (st0 := {| lex_tokens := tokens; lex_line := line;
                 lex_column := column; lex_code := code;
                 lex_matched := false |}).
  assert (Hp : lex_progress st0
                 (match_phase re_match self file_path tokens line column code)).
  { eapply lex_progress_trans;
      [apply match_regexes_progress, Hr|apply match_strings_progress, Hs]. }
  simpl. destruct Hp as [->|[_ Hl]]; simpl in *; [discriminate|].
  intros _; exact Hl.
Qed.

Lemma lex_loop_terminates fuel file_path tokens line column code :
  String.length code + 2 <= fuel ->
  exists result,
    lex_loop re_match fuel self file_path tokens line column code
      = Some result.
Proof.
  revert tokens line column code.
  induction fuel as [|fuel IH]; intros tokens line column code Hfuel; [lia|].
  simpl.
  destruct (String.length code =? 0); [eauto|].
  destruct (run_skips_terminates fuel line column code)
    as (l & c & code' & -> & Hlen); [lia|].
  destruct (String.length code' <=? 0); [eauto|].
  pose proof (match_phase_progress file_path tokens l c code') as Hp.
  simpl in Hp.
  destruct (lex_matched (match_phase re_match self file_path tokens l c code'));
    [|eauto].
  apply IH. specialize (Hp eq_refl). lia.
Qed.

(** More fuel does not change a result. *)
Lemma run_skips_more_fuel fuel fuel' line column code r :
  fuel <= fuel' ->
  _run_skips re_match fuel self line column code = Some r ->
  _run_skips re_match fuel' self line column code = Some r.
Proof.
  revert fuel' line column code.
  induction fuel as [|fuel IH]; intros fuel' line column code Hle;
    simpl; [discriminate|].
  destruct fuel' as [|fuel']; [lia|]. simpl.
  destruct (skip_matched _); [|auto].
  apply IH. lia.
Qed.

Lemma lex_loop_more_fuel fuel fuel' file_path tokens line column code r :
  fuel <= fuel' ->
  lex_loop re_match fuel self file_path tokens line column code = Some r ->
  lex_loop re_match fuel' self file_path tokens line column code = Some r.
Proof.
  revert fuel' tokens line column code.
  induction fuel as [|fuel IH]; intros fuel' tokens line column code Hle;
    simpl; [discriminate|].
  destruct fuel' as [|fuel']; [lia|]. simpl.
  destruct (String.length code =? 0); [auto|].
  destruct (_run_skips re_match fuel self line column code)
    as [[[l c] code']|] eqn:Hskip; [|discriminate].
  rewrite (run_skips_more_fuel fuel fuel' _ _ _ _ ltac:(lia) Hskip).
  destruct (String.length code' <=? 0); [auto|].
  destruct (lex_matched _); [|auto].
  apply IH. lia.
Qed.

(** C8, amended: when no rule of the configuration can match the empty
    text, [lex] runs to completion on every source, within a number of
    iterations bounded by the length of the source, and returns a token
    list or a [LexingError]. *)
Theorem lex_terminates (file_path source : string) :
  exists result,
    forall fuel, String.length source + 2 <= fuel ->
      lex re_match fuel self file_path source = Some result.
Proof.
  destruct (lex_loop_terminates (String.length source + 2) file_path [] 1 1
              source) as [result Hres]; [lia|].
  exists result. intros fuel Hfuel.
  eapply lex_loop_more_fuel; [exact Hfuel|exact Hres].
Qed.
End Termination.

(** ** Registration *)

Section Registration.
Context {K V : Type} `{EqDecision K}.
Implicit Types (d : dict K V) (k : K) (v : V).

Lemma dict_set_fresh d k v :
  dict_get d k = None -> dict_set d k v = d ++ [(k, v)].
Proof.
  induction d as [|[k' v'] d IH]; simpl; [reflexivity|].
  destruct (decide (k' = k)); [discriminate|].
  intros Hg. now rewrite IH.
Qed.

Lemma dict_set_set d k v1 v2 :
  dict_set (dict_set d k v1) k v2 = dict_set d k v2.
Proof.
  induction d as [|[k' v'] d IH]; simpl.
  - destruct (decide (k = k)); [reflexivity|contradiction].
  - destruct (decide (k' = k)) as [->|Hne]; simpl.
    + destruct (decide (k = k)); [reflexivity|contradiction].
    + destruct (decide (k' = k)); [contradiction|]. now rewrite IH.
Qed.

Lemma dict_get_set d k v : dict_get (dict_set d k v) k = Some v.
Proof.
  induction d as [|[k' v'] d IH]; simpl.
  - destruct (decide (k = k)); [reflexivity|contradiction].
  - destruct (decide (k' = k)) as [->|Hne]; simpl.
    + destruct (decide (k = k)); [reflexivity|contradiction].
    + destruct (decide (k' = k)); [contradiction|exact IH].
Qed.

Lemma dict_set_keys d k v v0 :
  dict_get d k = Some v0 -> (dict_set d k v).*1 = d.*1.
Proof.
  induction d as [|[k' v'] d IH]; simpl; [discriminate|].
  destruct (decide (k' = k)) as [->|Hne]; [reflexivity|].
  intros Hg. rewrite !fmap_cons. f_equal. apply IH, Hg.
Qed.
End Registration.

(** C4, amended: a registration for a type that has none yet is appended
    to the ordered store; a registration for a type that has one replaces
    the pattern or the literal of that type where it stands, so that after
    [add_regex(T, p1)] and [add_regex(T, p2)] the store is the one that
    [add_regex(T, p2)] alone gives, with [p2] for [T]. *)
Theorem registration_replaces `{EqDecision TokenTypes_T}
    (self : Compy.Lexer TokenTypes_T) (type : TokenTypes_T) :
  (forall regex,
      dict_get (regexes self) type = None ->
      regexes (add_regex self type regex)
        = regexes self ++ [(type, "^(" +:+ regex +:+ ")")]) /\
  (forall literal,
      dict_get (strings self) type = None ->
      strings (add_str self type literal)
        = strings self ++ [(type, literal)]) /\
  (forall regex old,
      dict_get (regexes self) type = Some old ->
      (regexes (add_regex self type regex)).*1 = (regexes self).*1) /\
  (forall literal old,
      dict_get (strings self) type = Some old ->
      (strings (add_str self type literal)).*1 = (strings self).*1) /\
  (forall p1 p2,
      regexes (add_regex (add_regex self type p1) type p2)
        = regexes (add_regex self type p2) /\
      dict_get (regexes (add_regex (add_regex self type p1) type p2)) type
        = Some ("^(" +:+ p2 +:+ ")")) /\
  (forall s1 s2,
      strings (add_str (add_str self type s1) type s2)
        = strings (add_str self type s2) /\
      dict_get (strings (add_str (add_str self type s1) type s2)) type
        = Some s2).
Proof.
  repeat split; simpl.
  - intros regex Hg. now apply dict_set_fresh.
  - intros literal Hg. now apply dict_set_fresh.
  - intros regex old Hg. eapply dict_set_keys, Hg.
  - intros literal old Hg. eapply dict_set_keys, Hg.
  - apply dict_set_set.
  - apply dict_get_set.
  - apply dict_set_set.
  - apply dict_get_set.
Qed.

Lemma registration_replaces_witness :
  regexes (add_regex Lexer_init Int "\d+") = [(Int, "^(\d+)")] /\
  strings (add_str (add_str Lexer_init Plus "+") Times "*")
    = [(Plus, "+"); (Times, "*")] /\
  (regexes (add_regex lexer Int "\s+")).*1 = [Int] /\
  (strings (add_str lexer Times "x")).*1
    = [Plus; Times; LeftParen; RightParen].
Proof.
  split; [|split; [|split]].
  - apply (proj1 (registration_replaces Lexer_init Int) "\d+"). reflexivity.
  - apply (proj1 (proj2 (registration_replaces
                           (add_str Lexer_init Plus "+") Times)) "*").
    reflexivity.
  - apply (proj1 (proj2 (proj2 (registration_replaces lexer Int)))
             "\s+" "^(\d+)").
    reflexivity.
  - apply (proj1 (proj2 (proj2 (proj2 (registration_replaces lexer Times))))
             "x" "*").
    reflexivity.
Defined.

(** C4 as it is stated fails: the second registration for [Int] leaves no
    trace of the first, and the text [1] is no longer a token. *)
Lemma second_registration_counterexample :
  ~ In (Int, "^(\d+)")
      (regexes (add_regex (add_regex Lexer_init Int "\d+") Int "\s+")) /\
  lex re_match 3 (add_regex (add_regex Lexer_init Int "\d+") Int "\s+")
    "<stdin>" "1"
    = Some (LexingError (at_column 1) "SYNTAX ERROR: Invalid character: '1'").
Proof.
  split; [|reflexivity].
  simpl. intros [Heq|[]]. discriminate Heq.
Qed.

(** ** The patterns of the demo *)

Lemma run_prefix (class : ascii -> bool) (code : string) :
  String.prefix (run class code) code = true.
Proof.
  induction code as [|c code IH]; simpl; [reflexivity|].
  destruct (class c); simpl; [|reflexivity].
  destruct (ascii_dec c c); [exact IH|contradiction].
Qed.

Lemma match_run_prefix class code whole :
  match_run class code = Some whole -> String.prefix whole code = true.
Proof.
  unfold match_run. pose proof (run_prefix class code) as Hp.
  destruct (run class code); [discriminate|].
  now intros [= <-].
Qed.

Lemma match_run_nonempty class code whole :
  match_run class code = Some whole -> whole <> EmptyString.
Proof.
  unfold match_run. destruct (run class code); [discriminate|].
  now intros [= <-].
Qed.

Lemma re_match_at_start : matches_at_start re_match.
Proof.
  intros regex code whole. unfold re_match.
  repeat destruct (String.eqb regex _);
    eauto using match_run_prefix; discriminate.
Qed.

Lemma re_match_never_empty (regex : string) : never_empty re_match regex.
Proof.
  intros code whole. unfold re_match.
  repeat destruct (String.eqb regex _);
    eauto using match_run_nonempty; discriminate.
Qed.

Lemma lexer_productive : productive re_match lexer.
Proof.
  split; simpl; repeat constructor;
    try apply re_match_never_empty; discriminate.
Qed.

(** ** The lexer on concrete configurations *)

Lemma lex_values_are_source_witness :
  lex re_match 5
    (add_str (add_regex Lexer_init Int "\d+") Plus "+") "<stdin>" "12+3"
    = Some (Tokens [Tok Int "12" (at_column 1); Tok Plus "+" (at_column 3);
                    Tok Int "3" (at_column 4)]) /\
  join_values [Tok Int "12" (at_column 1); Tok Plus "+" (at_column 3);
               Tok Int "3" (at_column 4)]
    = Return "12+3".
Proof.
  split; [reflexivity|].
  apply (lex_values_are_source re_match re_match_at_start 5
           (add_str (add_regex Lexer_init Int "\d+") Plus "+") "<stdin>");
    reflexivity.
Defined.

Lemma lex_terminates_witness :
  exists result,
    forall fuel, String.length "1 $ 2" + 2 <= fuel ->
      lex re_match fuel lexer "<stdin>" "1 $ 2" = Some result.
Proof.
  exact (lex_terminates re_match re_match_at_start lexer lexer_productive
           "<stdin>" "1 $ 2").
Defined.

(** C8 as it is stated fails: with the empty literal among the skip rules
    every pass of the skip loop matches, and no amount of fuel lets [lex]
    return. *)
Lemma empty_skip_counterexample :
  ~ exists fuel result,
      lex re_match fuel (skip_string lexer "") "<stdin>" code = Some result.
Proof.
  assert (Hpass : forall line column text,
             skip_matched
               (skip_pass re_match (skip_string lexer "") line column text)
               = true).
  { intros line column text. unfold skip_pass; simpl.
    unfold string_skip_step.
    match goal with
    | |- context [String.prefix "" ?s] =>
        replace (String.prefix "" s) with true
          by (destruct s; reflexivity)
    end.
    unfold skip_over. destruct (_increment_location _ _ _); reflexivity. }
  assert (Hskips : forall fuel line column text,
             _run_skips re_match fuel (skip_string lexer "") line column text
               = None).
  { induction fuel as [|fuel IH]; intros line column text; [reflexivity|].
    rewrite run_skips_step, Hpass. apply IH. }
  intros (fuel & result & Hlex). destruct fuel as [|fuel]; [discriminate|].
  unfold lex in Hlex; simpl in Hlex. rewrite Hskips in Hlex. discriminate.
Qed.

(** C3: a literal is tried on the text that a pattern has just left. With
    the patterns [\d+] for [Int] and [\s+] for [Plus] and the literal of one
    space for [Times], the space of [1 ] is lexed as the literal although
    the pattern [\s+] matches there. *)
Theorem literal_after_pattern (fuel : nat) :
  let self :=
    add_str (add_regex (add_regex Lexer_init Int "\d+") Plus "\s+") Times " "
  in
  lex re_match (2 + fuel) self "<stdin>" "1 "
    = Some (Tokens [Tok Int "1" (at_column 1); Tok Times " " (at_column 2)])
  /\ regexes self = [(Int, "^(\d+)"); (Plus, "^(\s+)")]
  /\ re_match "^(\s+)" " " = Some " ".
Proof. repeat split. Qed.

(** C6: the text [1 * (2 + 3)] is lexed into the seven tokens, parsed into
    one tree with no token left, and the tree evaluates to 5. *)
Theorem demo_end_to_end (fuel : nat) :
  lex re_match (8 + fuel) lexer "<stdin>" "1 * (2 + 3)"
    = Some (Tokens
        [Tok Int "1" (at_column 1); Tok Times "*" (at_column 3);
         Tok LeftParen "(" (at_column 5); Tok Int "2" (at_column 6);
         Tok Plus "+" (at_column 8); Tok Int "3" (at_column 10);
         Tok RightParen ")" (at_column 11)]) /\
  parse (expr_parser (2 + fuel))
    [Tok Int "1" (at_column 1); Tok Times "*" (at_column 3);
     Tok LeftParen "(" (at_column 5); Tok Int "2" (at_column 6);
     Tok Plus "+" (at_column 8); Tok Int "3" (at_column 10);
     Tok RightParen ")" (at_column 11)]
    = Return (ParsingSuccess
        (TimesNode (IntNode "1") (PlusNode (IntNode "2") (IntNode "3"))) [])
  /\
  eval_expr (TimesNode (IntNode "1") (PlusNode (IntNode "2") (IntNode "3")))
    = Some 5%Z.
Proof. repeat split. Qed.

(** * Further laws of the combinators *)

Section CombinatorLaws.
Context {TokenTypes_T : Type} `{EqDecision TokenTypes_T}.

Abbreviation Token := (Token TokenTypes_T).
Abbreviation Parser := (Parser TokenTypes_T).

(** Splits on the result of every sub-parser in the goal. *)
Ltac run_all :=
  repeat match goal with
    | |- context [parse ?p ?ts] =>
        let Hr := fresh "Hr" in
        destruct (parse p ts) as [[? ?|? ?]|?] eqn:Hr; simpl
    | |- context [match ?s with Build_Seq _ _ => _ end] => destruct s; simpl
    end.

(** X1: [sequence(a, b).map(f)]: the failure of [a], else the failure of [b] on
    what [a] left, else [f] of the two values with what [b] left. *)
Theorem sequence_map_parse {U V W} (a : Parser U) (b : Parser V)
    (f : U -> V -> W) (ts : list Token) :
  (forall exp got,
      parse a ts = Return (ParsingFailure exp got) ->
      parse (map (sequence a b) f) ts = Return (ParsingFailure exp got)) /\
  (forall x rest exp got,
      parse a ts = Return (ParsingSuccess x rest) ->
      parse b rest = Return (ParsingFailure exp got) ->
      parse (map (sequence a b) f) ts = Return (ParsingFailure exp got)) /\
  (forall x rest y rest',
      parse a ts = Return (ParsingSuccess x rest) ->
      parse b rest = Return (ParsingSuccess y rest') ->
      parse (map (sequence a b) f) ts
        = Return (ParsingSuccess (f x y) rest')).
Proof.
  repeat split.
  - intros exp got Ha. simpl. now rewrite Ha.
  - intros x rest exp got Ha Hb. simpl. rewrite Ha. simpl. now rewrite Hb.
  - intros x rest y rest' Ha Hb. simpl. rewrite Ha. simpl. now rewrite Hb.
Qed.

(** X2: [a << b] and [a >> b] are [(a ^ b).map] of the two projections. *)
Theorem sequence_left_right_as_map {U V} (a : Parser U) (b : Parser V)
    (ts : list Token) :
  parse (sequence_left a b) ts = parse (map (sequence a b) (fun x _ => x)) ts
  /\
  parse (sequence_right a b) ts
    = parse (map (sequence a b) (fun _ y => y)) ts.
Proof. split; simpl; run_all; reflexivity. Qed.

(** X3: [alt] is associative, expected lists included. *)
Theorem alt_assoc {V} (a b c : Parser V) (ts : list Token) :
  parse (alt (alt a b) c) ts = parse (alt a (alt b c)) ts.
Proof. simpl; run_all; try reflexivity. now rewrite app_assoc. Qed.

(** X4: Sequencing does not depend on how it is bracketed. *)
Theorem sequence_assoc {U V W} (a : Parser U) (b : Parser V) (c : Parser W)
    (ts : list Token) :
  parse (sequence_right (sequence_right a b) c) ts
    = parse (sequence_right a (sequence_right b c)) ts /\
  parse (sequence_left (sequence_left a b) c) ts
    = parse (sequence_left a (sequence_left b c)) ts /\
  parse (sequence_left (sequence_right a b) c) ts
    = parse (sequence_right a (sequence_left b c)) ts.
Proof. repeat split; simpl; run_all; reflexivity. Qed.
End CombinatorLaws.

(** * What built parsers answer *)

Section BuiltParsers.
Context {TokenTypes_T : Type} `{EqDecision TokenTypes_T}.

Abbreviation Token := (Token TokenTypes_T).
Abbreviation Parser := (Parser TokenTypes_T).

(** The three leaves: the empty list, a head without fields, a head of the
    type, a head of another type. *)
Ltac leaf_regular :=
  let ts := fresh "ts" in
  intros ts; simpl;
  destruct ts as [|[ty val loc|] [|t1 tl]]; simpl;
  try match goal with
    | |- context [decide (?a = ?b)] => destruct (decide (a = b)); simpl
    end;
  repeat split;
  try discriminate; try lia; auto;
  try (apply suffix_cons_r; reflexivity);
  try (intros Hall; inversion Hall; contradiction);
  try (right; repeat constructor).

Lemma token_regular {V} (type : TokenTypes_T) (mapper : string -> V) :
  forall ts, regular ts (parse (token type mapper) ts).
Proof. leaf_regular. Qed.

Lemma singleton_regular {V} (type : TokenTypes_T) (value : V) :
  forall ts, regular ts (parse (singleton type value) ts).
Proof. leaf_regular. Qed.

Lemma ignore_regular (type : TokenTypes_T) :
  forall ts, regular ts (parse (ignore type) ts).
Proof. leaf_regular. Qed.

(** The answer of [b] on what [a] left is regular for the whole list. *)
Lemma regular_after {U V} (ts rest : list Token) (x : U)
    (r : Py (ParsingResult TokenTypes_T V)) :
  regular ts (Return (ParsingSuccess x rest)) ->
  regular rest r ->
  match r with
  | Return (ParsingSuccess _ rest') =>
      rest' `suffix_of` ts /\ length rest' < length ts
  | _ => regular ts r
  end.
Proof.
  intros [Hsuf Hlen] Hr.
  destruct r as [[y rest'|exp got]|e]; simpl in *.
  - destruct Hr as [Hsuf' Hlen']. split; [etrans; eassumption|lia].
  - destruct Hr as (Hne & Hgot & _). split; [exact Hne|]. split.
    + destruct Hgot as [->|Hin]; [now left|right].
      eapply elem_of_suffix; eassumption.
    + intros ->. simpl in Hlen. lia.
  - destruct Hr as [_ Hex]. split.
    + intros ->. simpl in Hlen. lia.
    + intros Hall. apply Hex.
      destruct Hsuf as [k ->]. now apply Forall_app in Hall as [_ Hall].
Qed.

Lemma sequence_right_regular {U V} (a : Parser U) (b : Parser V) :
  (forall ts, regular ts (parse a ts)) ->
  (forall ts, regular ts (parse b ts)) ->
  forall ts, regular ts (parse (sequence_right a b) ts).
Proof.
  intros Ha Hb ts. simpl. specialize (Ha ts).
  destruct (parse a ts) as [[x rest|exp got]|e]; simpl; try exact Ha.
  pose proof (regular_after ts rest x _ Ha (Hb rest)) as Hr.
  destruct (parse b rest) as [[y rest'|exp got]|e]; simpl; exact Hr.
Qed.

Lemma sequence_left_regular {U V} (a : Parser U) (b : Parser V) :
  (forall ts, regular ts (parse a ts)) ->
  (forall ts, regular ts (parse b ts)) ->
  forall ts, regular ts (parse (sequence_left a b) ts).
Proof.
  intros Ha Hb ts. simpl. specialize (Ha ts).
  destruct (parse a ts) as [[x rest|exp got]|e]; simpl; try exact Ha.
  pose proof (regular_after ts rest x _ Ha (Hb rest)) as Hr.
  destruct (parse b rest) as [[y rest'|exp got]|e]; simpl; exact Hr.
Qed.

Lemma sequence_regular {U V} (a : Parser U) (b : Parser V) :
  (forall ts, regular ts (parse a ts)) ->
  (forall ts, regular ts (parse b ts)) ->
  forall ts, regular ts (parse (sequence a b) ts).
Proof.
  intros Ha Hb ts. simpl. specialize (Ha ts).
  destruct (parse a ts) as [[x rest|exp got]|e]; simpl; try exact Ha.
  pose proof (regular_after ts rest x _ Ha (Hb rest)) as Hr.
  destruct (parse b rest) as [[y rest'|exp got]|e]; simpl; exact Hr.
Qed.

Lemma alt_regular {V} (a b : Parser V) :
  (forall ts, regular ts (parse a ts)) ->
  (forall ts, regular ts (parse b ts)) ->
  forall ts, regular ts (parse (alt a b) ts).
Proof.
  intros Ha Hb ts. simpl. specialize (Ha ts). specialize (Hb ts).
  destruct (parse a ts) as [[x rest|exp got]|e]; simpl; try exact Ha.
  destruct (parse b ts) as [[y rest'|exp' got']|e]; simpl; try exact Hb.
  destruct Ha as (Hne & _). destruct Hb as (_ & Hgot & Hnil).
  repeat split; try assumption.
  intros Happ. apply app_eq_nil in Happ as [? _]. contradiction.
Qed.

Lemma map_regular {U V W} (p : SeqParser TokenTypes_T U V)
    (mapper : U -> V -> W) :
  (forall ts, regular ts (parse p ts)) ->
  forall ts, regular ts (parse (map p mapper) ts).
Proof.
  intros Hp ts. simpl. specialize (Hp ts).
  destruct (parse p ts) as [[[x y] rest|exp got]|e]; simpl; exact Hp.
Qed.

Lemma Built_regular {V} (p : Parser V) :
  Built p -> forall ts, regular ts (parse p ts).
Proof.
  induction 1;
    auto using token_regular, singleton_regular, ignore_regular,
      sequence_right_regular, sequence_left_regular, sequence_regular,
      alt_regular, map_regular.
Qed.


(** X6: A built parser that succeeds has consumed at least one token. *)
Theorem Built_success_consumes {V} (p : Parser V) (ts : list Token) x rest :
  Built p ->
  parse p ts = Return (ParsingSuccess x rest) ->
  length rest < length ts.
Proof.
  intros Hp Hparse. pose proof (Built_regular p Hp ts) as Hr.
  rewrite Hparse in Hr. apply Hr.
Qed.

(** X7: A failure of a built parser names at least one expected type, and its
    offending token is [EOF] or one of the tokens it was given. *)
Theorem Built_failure_reports {V} (p : Parser V) (ts : list Token) exp got :
  Built p ->
  parse p ts = Return (ParsingFailure exp got) ->
  exp <> [] /\ (got = EOF \/ got ∈ ts).
Proof.
  intros Hp Hparse. pose proof (Built_regular p Hp ts) as Hr.
  rewrite Hparse in Hr. destruct Hr as (Hne & Hgot & _). now split.
Qed.

End BuiltParsers.

(** * Positions *)

Section Positions.
Context {TokenTypes_T : Type} `{EqDecision TokenTypes_T}.

Lemma increment_location_split (line column : nat) (a b : string) :
  _increment_location line column (a +:+ b)
    = _increment_location (_increment_location line column a).1
        (_increment_location line column a).2 b.
Proof.
  revert line column; induction a as [|char a IH]; intros line column;
    [reflexivity|].
  change (String char a +:+ b) with (String char (a +:+ b)). simpl.
  destruct (Ascii.eqb char "010"); apply IH.
Qed.

(** X9: Counting over a text in two parts is counting over the first part and
    going on over the second. *)
Theorem increment_location_append (line column : nat) (a b : string) :
  _increment_location line column (a +:+ b)
    = _increment_location (_increment_location line column a).1
        (_increment_location line column a).2 b.
Proof. apply increment_location_split. Qed.

(** X10: The line goes up by the number of line feeds; without a line feed the
    column goes up by the length of the text; the column stays at least 1. *)
Theorem increment_location_counts (line column : nat) (whole : string) :
  (_increment_location line column whole).1 = line + newlines whole /\
  (newlines whole = 0 ->
   (_increment_location line column whole).2
     = column + String.length whole) /\
  (1 <= column -> 1 <= (_increment_location line column whole).2).
Proof.
  revert line column; induction whole as [|char whole IH];
    intros line column; simpl.
  - repeat split; lia.
  - destruct (Ascii.eqb char "010").
    + destruct (IH (line + 1) 1) as (Hl & _ & Hc).
      repeat split; [lia|discriminate|intros _; apply Hc; lia].
    + destruct (IH line (column + 1)) as (Hl & Hn & Hc).
      repeat split; [lia|intros H0; rewrite (Hn H0); lia|].
      intros _. apply Hc. lia.
Qed.

Lemma reaches_refl line column code :
  reaches line column code line column code.
Proof. exists EmptyString. split; reflexivity. Qed.

Lemma reaches_trans l0 c0 s0 l1 c1 s1 l2 c2 s2 :
  reaches l0 c0 s0 l1 c1 s1 -> reaches l1 c1 s1 l2 c2 s2 ->
  reaches l0 c0 s0 l2 c2 s2.
Proof.
  intros (t1 & -> & H1) (t2 & -> & H2). exists (t1 +:+ t2). split.
  - now rewrite append_assoc.
  - rewrite increment_location_split, H1. exact H2.
Qed.
End Positions.

(** * What a run of the lexer keeps *)

Section LexerRuns.
Context {TokenTypes_T : Type} `{EqDecision TokenTypes_T}.
Variable re_match : string -> string -> option string.

Abbreviation Token := (Token TokenTypes_T).
Abbreviation Lexer := (Lexer TokenTypes_T).
Abbreviation LexState := (LexState TokenTypes_T).

(** ** The skip loop *)

Lemma skip_over_matched (st : SkipState) whole :
  skip_matched (skip_over st whole) = true.
Proof.
  unfold skip_over. now destruct (_increment_location _ _ _).
Qed.

Lemma regex_skips_keep_matched skips (st : SkipState) :
  skip_matched st = true ->
  skip_matched (foldl (regex_skip_step re_match) st skips) = true.
Proof.
  revert st; induction skips as [|skip skips IH]; intros st Hm; simpl;
    [exact Hm|].
  apply IH. unfold regex_skip_step.
  destruct (re_match skip (skip_code st)); [apply skip_over_matched|exact Hm].
Qed.

Lemma string_skips_keep_matched skips (st : SkipState) :
  skip_matched st = true ->
  skip_matched (foldl string_skip_step st skips) = true.
Proof.
  revert st; induction skips as [|skip skips IH]; intros st Hm; simpl;
    [exact Hm|].
  apply IH. unfold string_skip_step.
  destruct (String.prefix skip (skip_code st));
    [apply skip_over_matched|exact Hm].
Qed.

Lemma regex_skips_unmatched skips (st : SkipState) :
  skip_matched (foldl (regex_skip_step re_match) st skips) = false ->
  foldl (regex_skip_step re_match) st skips = st /\
  Forall (fun skip => re_match skip (skip_code st) = None) skips.
Proof.
  induction skips as [|skip skips IH]; simpl; [now split|].
  unfold regex_skip_step at 2 4.
  destruct (re_match skip (skip_code st)) as [whole|] eqn:Hm.
  - intros Hf.
    rewrite regex_skips_keep_matched in Hf by apply skip_over_matched.
    discriminate.
  - intros Hf. destruct (IH Hf) as [-> Hall]. split; [reflexivity|].
    now constructor.
Qed.

Lemma string_skips_unmatched skips (st : SkipState) :
  skip_matched (foldl string_skip_step st skips) = false ->
  foldl string_skip_step st skips = st /\
  Forall (fun skip => String.prefix skip (skip_code st) = false) skips.
Proof.
  induction skips as [|skip skips IH]; simpl; [now split|].
  unfold string_skip_step at 2 4.
  destruct (String.prefix skip (skip_code st)) eqn:Hp.
  - intros Hf.
    rewrite string_skips_keep_matched in Hf by apply skip_over_matched.
    discriminate.
  - intros Hf. destruct (IH Hf) as [-> Hall]. split; [reflexivity|].
    now constructor.
Qed.

Lemma skip_pass_unmatched (self : Lexer) line column code :
  skip_matched (skip_pass re_match self line column code) = false ->
  skip_pass re_match self line column code
    = {| skip_matched := false; skip_line := line; skip_column := column;
         skip_code := code |} /\
  unskippable re_match self code.
Proof.
  unfold skip_pass. intros Hf.
  destruct (string_skips_unmatched _ _ Hf) as [Heq Hstr].
  rewrite Heq in Hf |- *.
  destruct (regex_skips_unmatched _ _ Hf) as [Heq' Hre].
  rewrite Heq' in Hstr |- *. simpl in *. now repeat split.
Qed.

Lemma run_skips_leaves_unskippable_aux fuel (self : Lexer) line column code
    line' column' code' :
  _run_skips re_match fuel self line column code
    = Some (line', column', code') ->
  unskippable re_match self code'.
Proof.
  revert line column code.
  induction fuel as [|fuel IH]; intros line column code; [discriminate|].
  rewrite run_skips_step.
  destruct (skip_matched (skip_pass re_match self line column code)) eqn:Hm.
  - apply IH.
  - destruct (skip_pass_unmatched _ _ _ _ Hm) as [-> Hun]. simpl.
    now intros [= _ _ <-].
Qed.

(** X11: [_run_skips] returns a text to which no skip rule applies. *)
Theorem run_skips_leaves_unskippable fuel (self : Lexer) line column code
    line' column' code' :
  _run_skips re_match fuel self line column code
    = Some (line', column', code') ->
  unskippable re_match self code'.
Proof. apply run_skips_leaves_unskippable_aux. Qed.
(** ** The match phase *)

Lemma emit_matched file_path (st : LexState) type whole :
  lex_matched (emit file_path st type whole) = true.
Proof. unfold emit. now destruct (_increment_location _ _ _). Qed.

Lemma emit_tokens file_path (st : LexState) type whole :
  lex_tokens (emit file_path st type whole)
    = lex_tokens st
      ++ [Tok type whole {| file := file_path; line := lex_line st;
                            column := lex_column st |}].
Proof. unfold emit. now destruct (_increment_location _ _ _). Qed.

(** The loop over the patterns stops at the first pattern, in the order of
    the store, that matches. *)
Lemma match_regexes_cases file_path items (st : LexState) :
  (match_regexes re_match file_path items st = st /\
   Forall (fun item => re_match item.2 (lex_code st) = None) items) \/
  (exists before type regex after whole,
      items = before ++ (type, regex) :: after /\
      Forall (fun item => re_match item.2 (lex_code st) = None) before /\
      re_match regex (lex_code st) = Some whole /\
      match_regexes re_match file_path items st
        = emit file_path st type whole).
Proof.
  induction items as [|[type regex] items IH]; simpl; [left; now split|].
  destruct (re_match regex (lex_code st)) as [whole|] eqn:Hm.
  - right. exists [], type, regex, items, whole. now repeat split.
  - destruct IH as [[Heq Hall]|(before & ty & re & after & whole & -> & Hall
                                 & Hre & Heq)].
    + left. split; [exact Heq|]. now constructor.
    + right. exists ((type, regex) :: before), ty, re, after, whole.
      repeat split; try assumption. now constructor.
Qed.

Lemma match_strings_cases file_path items (st : LexState) :
  (match_strings file_path items st = st /\
   Forall (fun item : TokenTypes_T * string =>
             String.prefix item.2 (lex_code st) = false) items) \/
  (exists before type lit after,
      items = before ++ (type, lit) :: after /\
      Forall (fun item : TokenTypes_T * string =>
                String.prefix item.2 (lex_code st) = false) before /\
      String.prefix lit (lex_code st) = true /\
      match_strings file_path items st = emit file_path st type lit).
Proof.
  induction items as [|[type lit] items IH]; simpl; [left; now split|].
  destruct (String.prefix lit (lex_code st)) eqn:Hp.
  - right. exists [], type, lit, items. now repeat split.
  - destruct IH as [[Heq Hall]|(before & ty & l & after & -> & Hall
                                 & Hl & Heq)].
    + left. split; [exact Heq|]. now constructor.
    + right. exists ((type, lit) :: before), ty, l, after.
      repeat split; try assumption. now constructor.
Qed.

Lemma match_phase_unmatched (self : Lexer) file_path tokens line column code :
  lex_matched (match_phase re_match self file_path tokens line column code)
    = false ->
  match_phase re_match self file_path tokens line column code
    = {| lex_tokens := tokens; lex_line := line; lex_column := column;
         lex_code := code; lex_matched := false |} /\
  unmatched re_match self code.
Proof.
  unfold match_phase.
  set (st0 := {| lex_tokens := tokens; lex_line := line;
                 lex_column := column; lex_code := code;
                 lex_matched := false |}).
  destruct (match_regexes_cases file_path (regexes self) st0)
    as [[-> Hre]|(? & ? & ? & ? & ? & _ & _ & _ & ->)].
  - destruct (match_strings_cases file_path (strings self) st0)
      as [[-> Hstr]|(? & ? & ? & ? & _ & _ & _ & ->)].
    + intros _. now repeat split.
    + rewrite emit_matched. discriminate.
  - match goal with
    | |- context [match_strings _ _ ?st] =>
        destruct (match_strings_cases file_path (strings self) st)
          as [[-> _]|(? & ? & ? & ? & _ & _ & _ & ->)]
    end; rewrite emit_matched; discriminate.
Qed.

(** X13: The first pattern of the store that matches gives the next token,
    whatever the patterns after it would match. *)
Theorem first_matching_pattern_wins (self : Lexer) file_path tokens line
    column code before type regex after whole :
  regexes self = before ++ (type, regex) :: after ->
  Forall (fun item => re_match item.2 code = None) before ->
  re_match regex code = Some whole ->
  exists more,
    lex_tokens (match_phase re_match self file_path tokens line column code)
      = tokens
        ++ Tok type whole
             {| file := file_path; line := line; column := column |}
        :: more.
Proof.
  intros Hitems Hbefore Hm. unfold match_phase.
  set (st0 := {| lex_tokens := tokens; lex_line := line;
                 lex_column := column; lex_code := code;
                 lex_matched := false |}).
  assert (Hre : match_regexes re_match file_path (regexes self) st0
                = emit file_path st0 type whole).
  { rewrite Hitems. clear Hitems.
    induction Hbefore as [|[ty re] before Hnone _ IH]; simpl.
    - now rewrite Hm.
    - simpl in Hnone. now rewrite Hnone. }
  rewrite Hre.
  match goal with
  | |- context [match_strings _ _ ?st] =>
      destruct (match_strings_cases file_path (strings self) st)
        as [[-> _]|(? & ty & lit & ? & _ & _ & _ & ->)]
  end.
  - exists []. apply emit_tokens.
  - eexists [_]. rewrite !emit_tokens. simpl. now rewrite <- app_assoc.
Qed.

(** X14: When no pattern matches, the first literal of the store that starts
    the text gives the next token, and the only one of the iteration. *)
Theorem first_matching_literal_wins (self : Lexer) file_path tokens line
    column code before type lit after :
  Forall (fun item => re_match item.2 code = None) (regexes self) ->
  strings self = before ++ (type, lit) :: after ->
  Forall (fun item => String.prefix item.2 code = false) before ->
  String.prefix lit code = true ->
  lex_tokens (match_phase re_match self file_path tokens line column code)
    = tokens
      ++ [Tok type lit {| file := file_path; line := line; column := column |}]
  /\
  lex_code (match_phase re_match self file_path tokens line column code)
    = str_from (String.length lit) code.
Proof.
  intros Hnone Hitems Hbefore Hp. unfold match_phase.
  set (st0 := {| lex_tokens := tokens; lex_line := line;
                 lex_column := column; lex_code := code;
                 lex_matched := false |}).
  assert (Hre : match_regexes re_match file_path (regexes self) st0 = st0).
  { induction Hnone as [|[ty re] items Hn _ IH]; simpl; [reflexivity|].
    simpl in Hn. now rewrite Hn. }
  rewrite Hre, Hitems. clear Hitems Hre.
  assert (Hstr : match_strings file_path (before ++ (type, lit) :: after) st0
                 = emit file_path st0 type lit).
  { induction Hbefore as [|[ty l] before Hn _ IH]; simpl.
    - now rewrite Hp.
    - simpl in Hn. now rewrite Hn. }
  rewrite Hstr. split; [apply emit_tokens|].
  unfold emit. now destruct (_increment_location _ _ _).
Qed.
(** ** The tokens of a run *)

Lemma match_phase_from_rules (self : Lexer) file_path tokens line column code :
  Forall (from_rule re_match self) tokens ->
  Forall (from_rule re_match self)
    (lex_tokens (match_phase re_match self file_path tokens line column code)).
Proof.
  intros Hall. unfold match_phase.
  set (st0 := {| lex_tokens := tokens; lex_line := line;
                 lex_column := column; lex_code := code;
                 lex_matched := false |}).
  assert (Hre : Forall (from_rule re_match self)
                  (lex_tokens
                     (match_regexes re_match file_path (regexes self) st0))).
  { destruct (match_regexes_cases file_path (regexes self) st0)
      as [[-> _]|(before & ty & re & after & whole & Hitems & _ & Hm & ->)];
      [exact Hall|].
    rewrite emit_tokens. apply Forall_app. split; [exact Hall|].
    constructor; [|constructor]. left. exists re, (lex_code st0).
    split; [|exact Hm]. rewrite Hitems. apply elem_of_app. right. constructor. }
  match goal with
  | |- context [match_strings _ _ ?st] =>
      destruct (match_strings_cases file_path (strings self) st)
        as [[-> _]|(before & ty & lit & after & Hitems & _ & _ & ->)]
  end; [exact Hre|].
  rewrite emit_tokens. apply Forall_app. split; [exact Hre|].
  constructor; [|constructor]. right.
  rewrite Hitems. apply elem_of_app. right. constructor.
Qed.

Lemma lex_loop_from_rules fuel (self : Lexer) file_path tokens line column
    code toks :
  Forall (from_rule re_match self) tokens ->
  lex_loop re_match fuel self file_path tokens line column code
    = Some (Tokens toks) ->
  Forall (from_rule re_match self) toks.
Proof.
  revert tokens line column code.
  induction fuel as [|fuel IH]; intros tokens line column code Hall;
    simpl; [discriminate|].
  destruct (String.length code =? 0); [now intros [= <-]|].
  destruct (_run_skips re_match fuel self line column code)
    as [[[l c] code']|]; [|discriminate].
  destruct (String.length code' <=? 0); [now intros [= <-]|].
  pose proof (match_phase_from_rules self file_path tokens l c code' Hall)
    as Hph.
  destruct (lex_matched _); [|discriminate].
  now apply IH.
Qed.

(** X15: Every token that [lex] returns comes from a rule of the configuration:
    it is a proper token whose value is a match of the pattern registered
    for its type or the literal registered for its type. *)
Theorem lex_tokens_from_rules fuel (self : Lexer) file_path source toks :
  lex re_match fuel self file_path source = Some (Tokens toks) ->
  Forall (from_rule re_match self) toks.
Proof. apply lex_loop_from_rules. constructor. Qed.

(** ** Positions along a run *)

Hypothesis re_match_prefix : matches_at_start re_match.

Lemma skip_over_reaches (st : SkipState) whole :
  String.prefix whole (skip_code st) = true ->
  reaches (skip_line st) (skip_column st) (skip_code st)
    (skip_line (skip_over st whole)) (skip_column (skip_over st whole))
    (skip_code (skip_over st whole)).
Proof.
  intros Hp. exists whole. unfold skip_over.
  destruct (_increment_location _ _ _) as [l c] eqn:Hloc; simpl.
  split; [now rewrite prefix_str_from|reflexivity].
Qed.

Lemma regex_skips_reach skips (st : SkipState) :
  reaches (skip_line st) (skip_column st) (skip_code st)
    (skip_line (foldl (regex_skip_step re_match) st skips))
    (skip_column (foldl (regex_skip_step re_match) st skips))
    (skip_code (foldl (regex_skip_step re_match) st skips)).
Proof.
  revert st; induction skips as [|skip skips IH]; intros st; simpl;
    [apply reaches_refl|].
  eapply reaches_trans; [|apply IH]. unfold regex_skip_step.
  destruct (re_match skip (skip_code st)) as [whole|] eqn:Hm;
    [|apply reaches_refl].
  apply skip_over_reaches. eapply re_match_prefix, Hm.
Qed.

Lemma string_skips_reach skips (st : SkipState) :
  reaches (skip_line st) (skip_column st) (skip_code st)
    (skip_line (foldl string_skip_step st skips))
    (skip_column (foldl string_skip_step st skips))
    (skip_code (foldl string_skip_step st skips)).
Proof.
  revert st; induction skips as [|skip skips IH]; intros st; simpl;
    [apply reaches_refl|].
  eapply reaches_trans; [|apply IH]. unfold string_skip_step.
  destruct (String.prefix skip (skip_code st)) eqn:Hp; [|apply reaches_refl].
  now apply skip_over_reaches.
Qed.

Lemma run_skips_reach fuel (self : Lexer) line column code line' column'
    code' :
  _run_skips re_match fuel self line column code
    = Some (line', column', code') ->
  reaches line column code line' column' code'.
Proof.
  revert line column code.
  induction fuel as [|fuel IH]; intros line column code; [discriminate|].
  rewrite run_skips_step.
  assert (Hpass : reaches line column code
            (skip_line (skip_pass re_match self line column code))
            (skip_column (skip_pass re_match self line column code))
            (skip_code (skip_pass re_match self line column code))).
  { unfold skip_pass. eapply reaches_trans; [|apply string_skips_reach].
    apply (regex_skips_reach (regex_skips self)
             {| skip_matched := false; skip_line := line;
                skip_column := column; skip_code := code |}). }
  destruct (skip_matched _).
  - intros Hrun. eapply reaches_trans; [exact Hpass|]. apply IH, Hrun.
  - now intros [= <- <- <-].
Qed.

(** X12: What [_run_skips] returns is the text it was given without a part of
    its front, and the line and column counted over that part. *)
Theorem run_skips_consumes_front fuel (self : Lexer) line column code line'
    column' code' :
  _run_skips re_match fuel self line column code
    = Some (line', column', code') ->
  exists skipped,
    code = skipped +:+ code' /\
    _increment_location line column skipped = (line', column').
Proof. apply run_skips_reach. Qed.
Lemma invalid_character_cons (char : ascii) (after : string) :
  invalid_character (String char after)
    = "SYNTAX ERROR: Invalid character: '" +:+ String char "'".
Proof. destruct after; reflexivity. Qed.

Lemma emit_on_track file_path source (st : LexState) type whole :
  String.prefix whole (lex_code st) = true ->
  on_track file_path source st ->
  on_track file_path source (emit file_path st type whole).
Proof.
  intros Hp [(text & Hsrc & Hloc) Hall]. split.
  - exists (text +:+ whole). unfold emit.
    destruct (_increment_location (lex_line st) _ _) as [l c] eqn:Hinc; simpl.
    split.
    + now rewrite append_assoc, prefix_str_from.
    + now rewrite increment_location_split, Hloc.
  - rewrite emit_tokens. apply Forall_app. split; [exact Hall|].
    constructor; [|constructor]. simpl.
    exists text, (str_from (String.length whole) (lex_code st)). split.
    + now rewrite prefix_str_from.
    + now rewrite Hloc.
Qed.

Lemma match_phase_on_track (self : Lexer) file_path source tokens line column
    code :
  reaches 1 1 source line column code ->
  Forall (located file_path source) tokens ->
  on_track file_path source
    (match_phase re_match self file_path tokens line column code).
Proof.
  intros Hreach Hall. unfold match_phase.
  set (st0 := {| lex_tokens := tokens; lex_line := line;
                 lex_column := column; lex_code := code;
                 lex_matched := false |}).
  assert (H0 : on_track file_path source st0) by now split.
  assert (Hre : on_track file_path source
                  (match_regexes re_match file_path (regexes self) st0)).
  { destruct (match_regexes_cases file_path (regexes self) st0)
      as [[-> _]|(? & ? & ? & ? & whole & _ & _ & Hm & ->)]; [exact H0|].
    apply emit_on_track; [|exact H0]. eapply re_match_prefix, Hm. }
  match goal with
  | |- context [match_strings _ _ ?st] =>
      destruct (match_strings_cases file_path (strings self) st)
        as [[-> _]|(? & ? & lit & ? & _ & _ & Hp & ->)]
  end; [exact Hre|].
  now apply emit_on_track.
Qed.

Lemma lex_loop_on_track fuel (self : Lexer) file_path source tokens line
    column code :
  reaches 1 1 source line column code ->
  Forall (located file_path source) tokens ->
  match lex_loop re_match fuel self file_path tokens line column code with
  | Some (Tokens toks) => Forall (located file_path source) toks
  | Some (LexingError loc message) =>
      exists before char after,
        source = before +:+ String char after /\
        loc = {| file := file_path;
                 line := (_increment_location 1 1 before).1;
                 column := (_increment_location 1 1 before).2 |} /\
        message = "SYNTAX ERROR: Invalid character: '" +:+ String char "'" /\
        unskippable re_match self (String char after) /\
        unmatched re_match self (String char after)
  | None => True
  end.
Proof.
  revert tokens line column code.
  induction fuel as [|fuel IH]; intros tokens line column code Hreach Hall;
    simpl; [exact I|].
  destruct (String.length code =? 0); [exact Hall|].
  destruct (_run_skips re_match fuel self line column code)
    as [[[l c] code']|] eqn:Hskip; [|exact I].
  pose proof (run_skips_leaves_unskippable_aux _ _ _ _ _ _ _ _ Hskip) as Hun.
  apply run_skips_reach in Hskip.
  pose proof (reaches_trans _ _ _ _ _ _ _ _ _ Hreach Hskip) as Hreach'.
  destruct (String.length code' <=? 0) eqn:Hlen; [exact Hall|].
  pose proof (match_phase_on_track self file_path source tokens l c code'
                Hreach' Hall) as [Hr Ht].
  destruct (lex_matched
              (match_phase re_match self file_path tokens l c code'))
    eqn:Hm.
  - now apply IH.
  - destruct (match_phase_unmatched self file_path tokens l c code' Hm)
      as [-> Hnone]. simpl.
    destruct code' as [|char after]; [discriminate|].
    destruct Hreach' as (before & -> & Hloc).
    exists before, char, after. rewrite Hloc. simpl.
    split; [reflexivity|]. split; [reflexivity|].
    split; [apply invalid_character_cons|].
    split; [exact Hun|exact Hnone].
Qed.

(** X16: The location of every token that [lex] returns is the place of its
    value in the source: the line and the column counted from 1 and 1 over
    the text before it. *)
Theorem lex_tokens_located fuel (self : Lexer) file_path source toks :
  lex re_match fuel self file_path source = Some (Tokens toks) ->
  Forall (located file_path source) toks.
Proof.
  intros Hlex.
  pose proof (lex_loop_on_track fuel self file_path source [] 1 1 source
                (reaches_refl 1 1 source) (Forall_nil_2 _)) as Hrun.
  unfold lex in Hlex. now rewrite Hlex in Hrun.
Qed.

(** X17: A [LexingError] points at a character of the source to which no rule
    applies, neither a skip rule nor a pattern nor a literal, and its
    message names that character. *)
Theorem lex_error_points_at_character fuel (self : Lexer) file_path source
    loc message :
  lex re_match fuel self file_path source = Some (LexingError loc message) ->
  exists before char after,
    source = before +:+ String char after /\
    loc = {| file := file_path;
             line := (_increment_location 1 1 before).1;
             column := (_increment_location 1 1 before).2 |} /\
    message = "SYNTAX ERROR: Invalid character: '" +:+ String char "'" /\
    unskippable re_match self (String char after) /\
    unmatched re_match self (String char after).
Proof.
  intros Hlex.
  pose proof (lex_loop_on_track fuel self file_path source [] 1 1 source
                (reaches_refl 1 1 source) (Forall_nil_2 _)) as Hrun.
  unfold lex in Hlex. now rewrite Hlex in Hrun.
Qed.
End LexerRuns.

(** * Configurations *)

Section Stores.
Context {K V : Type} `{EqDecision K}.
Implicit Types (d : list (K * V)) (k : K) (v : V).

Lemma dict_set_others d k v :
  filter (fun item => item.1 <> k) (dict_set d k v)
    = filter (fun item => item.1 <> k) d.
Proof.
  unfold dict. induction d as [|[k' v'] d IH].
  - change (dict_set [] k v) with [(k, v)].
    rewrite filter_cons_False by (simpl; auto). reflexivity.
  - change (dict_set ((k', v') :: d) k v)
      with (if decide (k' = k) then (k, v) :: d
            else (k', v') :: dict_set d k v).
    destruct (decide (k' = k)) as [->|Hne].
    + rewrite !filter_cons_False by (simpl; auto). reflexivity.
    + rewrite !filter_cons_True by (simpl; auto). now rewrite IH.
Qed.

Lemma dict_get_set_other d k k' v :
  k' <> k -> dict_get (dict_set d k v) k' = dict_get d k'.
Proof.
  intros Hne. induction d as [|[k0 v0] d IH]; simpl.
  - destruct (decide (k = k')); [congruence|reflexivity].
  - destruct (decide (k0 = k)) as [->|Hne0]; simpl.
    + destruct (decide (k = k')); [congruence|reflexivity].
    + destruct (decide (k0 = k')); [reflexivity|exact IH].
Qed.

Lemma dict_set_keys_fresh d k v :
  k ∉ d.*1 -> (dict_set d k v).*1 = d.*1 ++ [k].
Proof.
  induction d as [|[k' v'] d IH]; simpl; [reflexivity|].
  intros Hnin. apply not_elem_of_cons in Hnin as [Hne Hnin].
  destruct (decide (k' = k)); [congruence|].
  rewrite fmap_cons. simpl. now rewrite IH.
Qed.

Lemma dict_set_keys_present d k v :
  k ∈ d.*1 -> (dict_set d k v).*1 = d.*1.
Proof.
  induction d as [|[k' v'] d IH]; simpl; [intros Hin; inversion Hin|].
  destruct (decide (k' = k)) as [->|Hne]; [reflexivity|].
  intros Hin. apply elem_of_cons in Hin as [Heq|Hin]; [congruence|].
  rewrite fmap_cons. simpl. now rewrite IH.
Qed.

Lemma dict_set_NoDup d k v : NoDup d.*1 -> NoDup (dict_set d k v).*1.
Proof.
  intros Hnd. destruct (decide (k ∈ d.*1)) as [Hin|Hnin].
  - now rewrite dict_set_keys_present.
  - rewrite dict_set_keys_fresh by exact Hnin.
    apply NoDup_app. repeat split; [exact Hnd| |apply NoDup_singleton].
    intros x Hx Hx'. apply list_elem_of_singleton in Hx'. congruence.
Qed.
End Stores.

(** X18: A registration leaves the patterns and the literals of the other types
    as they are and where they are, and the stores it is not meant for
    untouched. *)
Theorem registration_keeps_other_types `{EqDecision TokenTypes_T}
    (self : Compy.Lexer TokenTypes_T) (type : TokenTypes_T) (text : string) :
  filter (fun item => item.1 <> type) (regexes (add_regex self type text))
    = filter (fun item => item.1 <> type) (regexes self) /\
  filter (fun item => item.1 <> type) (strings (add_str self type text))
    = filter (fun item => item.1 <> type) (strings self) /\
  (forall other, other <> type ->
     dict_get (regexes (add_regex self type text)) other
       = dict_get (regexes self) other /\
     dict_get (strings (add_str self type text)) other
       = dict_get (strings self) other) /\
  strings (add_regex self type text) = strings self /\
  regexes (add_str self type text) = regexes self.
Proof.
  repeat split; simpl;
    auto using dict_set_others, dict_get_set_other.
Qed.

(** X19: However a lexer is configured, it holds at most one pattern and at
    most one literal for a token type. *)
Theorem configured_one_rule_per_type `{EqDecision TokenTypes_T}
    (self : Compy.Lexer TokenTypes_T) :
  configured self ->
  NoDup (regexes self).*1 /\ NoDup (strings self).*1.
Proof.
  induction 1 as [|self type regex _ [Hr Hs]|self type lit _ [Hr Hs]
                  |self regex _ [Hr Hs]|self lit _ [Hr Hs]]; simpl.
  - split; constructor.
  - split; [now apply dict_set_NoDup|exact Hs].
  - split; [exact Hr|now apply dict_set_NoDup].
  - now split.
  - now split.
Qed.

(** X20: However a lexer is configured, each of its patterns, of a token type
    or of a skip rule, is the registered one between [^(] and [)]. *)
Theorem configured_patterns_are_groups `{EqDecision TokenTypes_T}
    (self : Compy.Lexer TokenTypes_T) :
  configured self ->
  Forall (fun item => exists regex, item.2 = "^(" +:+ regex +:+ ")")
    (regexes self) /\
  Forall (fun skip => exists regex, skip = "^(" +:+ regex +:+ ")")
    (regex_skips self).
Proof.
  induction 1 as [|self type regex _ [Hr Hs]|self type lit _ [Hr Hs]
                  |self regex _ [Hr Hs]|self lit _ [Hr Hs]]; simpl.
  - split; constructor.
  - split; [|exact Hs]. clear Hs.
    induction Hr as [|[k v] d Hitem Hd IH]; simpl.
    + constructor; [now exists regex|constructor].
    + destruct (decide (k = type)); constructor;
        try assumption; now exists regex.
  - now split.
  - split; [exact Hr|]. apply Forall_app. split; [exact Hs|].
    constructor; [now exists regex|constructor].
  - now split.
Qed.

(** * The demo from the text to the value *)

Section Yields.
Context {TokenTypes_T : Type} `{EqDecision TokenTypes_T}.
Variable G : Token TokenTypes_T -> Prop.

Abbreviation Parser := (Parser TokenTypes_T).







End Yields.







(** ** The depth of the recursion *)

Section RecursionDepth.
Context {TokenTypes_T : Type} `{EqDecision TokenTypes_T}.

Abbreviation Parser := (Parser TokenTypes_T).








End RecursionDepth.





(** * Names for C *)

Import C.

Lemma append_cons (c : ascii) (a b : string) :
  String c a +:+ b = String c (a +:+ b).
Proof. reflexivity. Qed.

Lemma append_empty_l (b : string) : EmptyString +:+ b = b.
Proof. reflexivity. Qed.

Lemma to_c_name_step_text new char :
  to_c_name_step new char = new +:+ c_text char.
Proof.
  unfold to_c_name_step, c_text, kept.
  destruct (isalpha char); [reflexivity|].
  destruct (Ascii.eqb char "_"); reflexivity.
Qed.

Lemma to_c_name_loop_from new name :
  to_c_name_loop new name = new +:+ to_c_name name.
Proof.
  unfold to_c_name. revert new; induction name as [|char name IH];
    intros new; simpl.
  - now rewrite append_empty_r.
  - rewrite (IH (to_c_name_step new char)),
      (IH (to_c_name_step EmptyString char)), !to_c_name_step_text.
    now rewrite append_assoc.
Qed.

Lemma to_c_name_cons char name :
  to_c_name (String char name) = c_text char +:+ to_c_name name.
Proof.
  unfold to_c_name at 1. simpl.
  now rewrite to_c_name_loop_from, to_c_name_step_text.
Qed.

(** X24: The new name of a name in two parts is the new names of the parts,
    one after the other. *)
Theorem to_c_name_append (a b : string) :
  to_c_name (a +:+ b) = to_c_name a +:+ to_c_name b.
Proof.
  induction a as [|char a IH]; [reflexivity|].
  rewrite append_cons, !to_c_name_cons, IH. now rewrite append_assoc.
Qed.

(** X25: The names that [to_c_name] leaves as they are are the names made of
    letters and underscores. *)
Theorem to_c_name_fixed (name : string) :
  to_c_name name = name <-> all_chars kept name = true.
Proof.
  induction name as [|char name IH]; simpl; [now split|].
  rewrite to_c_name_cons. unfold c_text.
  destruct (kept char) eqn:Hk; simpl; rewrite append_cons.
  - rewrite <- IH. change (EmptyString +:+ to_c_name name)
      with (to_c_name name).
    split; [intros [= Heq]; exact Heq|intros Heq; now rewrite Heq].
  - split; [|discriminate]. intros [= <- _]. discriminate Hk.
Qed.

Lemma all_chars_append P (a b : string) :
  all_chars P (a +:+ b) = all_chars P a && all_chars P b.
Proof.
  induction a as [|c a IH]; [reflexivity|].
  rewrite append_cons. simpl. now rewrite IH, andb_assoc.
Qed.

Lemma string_of_uint_digits d :
  all_chars Demo.is_digit (NilEmpty.string_of_uint d) = true.
Proof. induction d; simpl; auto. Qed.

Lemma str_digits n : all_chars Demo.is_digit (str n) = true.
Proof. apply string_of_uint_digits. Qed.

Lemma str_nonempty n : str n <> EmptyString.
Proof.
  unfold str. intros Hs.
  assert (Hnil : Nat.to_uint n = Decimal.Nil).
  { pose proof (NilEmpty.usu (Nat.to_uint n)) as Hu. rewrite Hs in Hu.
    simpl in Hu. congruence. }
  pose proof (Unsigned.to_of (Nat.to_uint n)) as Hto.
  rewrite Unsigned.of_to, Hnil in Hto.
  now apply (unorm_nonnil Decimal.Nil).
Qed.

Lemma str_inj n m : str n = str m -> n = m.
Proof.
  unfold str. intros Hs. apply Unsigned.to_uint_inj.
  pose proof (NilEmpty.usu (Nat.to_uint n)) as Hn.
  pose proof (NilEmpty.usu (Nat.to_uint m)) as Hm.
  rewrite Hs in Hn. congruence.
Qed.

Lemma digit_not_kept (c : ascii) : Demo.is_digit c = true -> kept c = false.
Proof.
  destruct c as [[] [] [] [] [] [] [] []]; vm_compute; congruence.
Qed.

Lemma c_text_chars char : all_chars c_char (c_text char) = true.
Proof.
  unfold c_text. destruct (kept char) eqn:Hk; simpl.
  - unfold c_char. now rewrite Hk.
  - pose proof (str_digits (nat_of_ascii char)) as Hd.
    induction (str (nat_of_ascii char)) as [|c s IH]; [reflexivity|].
    simpl in *. apply andb_true_iff in Hd as [Hc Hs].
    unfold c_char at 1. rewrite Hc, orb_true_r. simpl. now apply IH.
Qed.

(** X26: A new name is made of letters, underscores and decimal digits only. *)
Theorem to_c_name_chars (name : string) :
  all_chars c_char (to_c_name name) = true.
Proof.
  induction name as [|char name IH]; [reflexivity|].
  now rewrite to_c_name_cons, all_chars_append, c_text_chars, IH.
Qed.

Lemma c_text_nonempty char : c_text char <> EmptyString.
Proof. unfold c_text. destruct (kept char); discriminate. Qed.

Lemma to_c_name_no_digit_first name : no_digit_first (to_c_name name).
Proof.
  destruct name as [|char name]; [exact I|].
  rewrite to_c_name_cons. unfold c_text.
  destruct (kept char) eqn:Hk; rewrite append_cons; simpl; [|reflexivity].
  destruct (Demo.is_digit char) eqn:Hd; [|reflexivity].
  apply digit_not_kept in Hd. congruence.
Qed.

(** A run of digits followed by a text that does not start with a digit
    can be read in one way only. *)
Lemma digits_then_text (d1 d2 e1 e2 : string) :
  all_chars Demo.is_digit d1 = true -> all_chars Demo.is_digit d2 = true ->
  no_digit_first e1 -> no_digit_first e2 ->
  d1 +:+ e1 = d2 +:+ e2 -> d1 = d2 /\ e1 = e2.
Proof.
  revert d2; induction d1 as [|c d1 IH]; intros [|c2 d2] H1 H2 He1 He2;
    rewrite ?append_cons, ?append_empty_l; simpl in *.
  - now split.
  - intros ->. simpl in He1. apply andb_true_iff in H2 as [Hc _]. congruence.
  - intros <-. simpl in He2. apply andb_true_iff in H1 as [Hc _]. congruence.
  - intros [= <- Heq].
    apply andb_true_iff in H1 as [_ H1]. apply andb_true_iff in H2 as [_ H2].
    destruct (IH d2 H1 H2 He1 He2 Heq) as [-> ->]. now split.
Qed.

Lemma to_c_name_inj (a b : string) : to_c_name a = to_c_name b -> a = b.
Proof.
  revert b; induction a as [|c a IH]; intros [|c2 b].
  - reflexivity.
  - rewrite to_c_name_cons. intros Heq. symmetry in Heq.
    destruct (c_text c2) eqn:Ht; [now apply c_text_nonempty in Ht|].
    discriminate Heq.
  - rewrite to_c_name_cons. intros Heq.
    destruct (c_text c) eqn:Ht; [now apply c_text_nonempty in Ht|].
    discriminate Heq.
  - rewrite !to_c_name_cons. unfold c_text.
    pose proof (to_c_name_no_digit_first a) as Ha.
    pose proof (to_c_name_no_digit_first b) as Hb.
    pose proof (str_digits (nat_of_ascii c)) as Hd.
    pose proof (str_digits (nat_of_ascii c2)) as Hd2.
    pose proof (str_nonempty (nat_of_ascii c)) as Hn.
    pose proof (str_nonempty (nat_of_ascii c2)) as Hn2.
    destruct (kept c) eqn:Hk, (kept c2) eqn:Hk2;
      rewrite !append_cons, ?append_empty_l.
    + intros [= -> Heq]. f_equal. now apply IH.
    + intros [= -> Heq]. exfalso.
      destruct (str (nat_of_ascii c2)) as [|d s]; [congruence|].
      rewrite append_cons in Heq. rewrite Heq in Ha. simpl in *.
      apply andb_true_iff in Hd2 as [Hd2 _]. congruence.
    + intros [= <- Heq]. exfalso.
      destruct (str (nat_of_ascii c)) as [|d s]; [congruence|].
      rewrite append_cons in Heq. rewrite <- Heq in Hb. simpl in *.
      apply andb_true_iff in Hd as [Hd _]. congruence.
    + intros [= Heq].
      destruct (digits_then_text _ _ _ _ Hd Hd2 Ha Hb Heq) as [Hs Hrest].
      apply str_inj in Hs.
      assert (c = c2) as ->.
      { rewrite <- (ascii_nat_embedding c), <- (ascii_nat_embedding c2).
        now rewrite Hs. }
      f_equal. now apply IH.
Qed.

(** X27: Two names that differ have new names that differ, and so have the
    identifiers made of them. *)
Theorem to_c_name_injective (a b : string) :
  (to_c_name a = to_c_name b -> a = b) /\
  (as_code (C_Identifier_init a) = as_code (C_Identifier_init b) -> a = b).
Proof. split; apply to_c_name_inj. Qed.

(** * The further properties on concrete inputs *)

Lemma sequence_map_parse_witness :
  parse (map (sequence (singleton Int (IntNode "1"))
                (singleton Plus (IntNode "2"))) plus_node)
    [Tok Plus "+" (at_column 1)]
    = Return (ParsingFailure [Int] (Tok Plus "+" (at_column 1))) /\
  parse (map (sequence (singleton Int (IntNode "1"))
                (singleton Plus (IntNode "2"))) plus_node)
    [Tok Int "1" (at_column 1); Tok Int "2" (at_column 2)]
    = Return (ParsingFailure [Plus] (Tok Int "2" (at_column 2))) /\
  parse (map (sequence (singleton Int (IntNode "1"))
                (singleton Plus (IntNode "2"))) plus_node)
    [Tok Int "1" (at_column 1); Tok Plus "+" (at_column 2)]
    = Return (ParsingSuccess (PlusNode (IntNode "1") (IntNode "2")) []).
Proof.
  split; [|split].
  - apply (proj1 (sequence_map_parse _ _ _ _)). reflexivity.
  - apply (proj1 (proj2 (sequence_map_parse _ _ _ _))
             (IntNode "1") [Tok Int "2" (at_column 2)]); reflexivity.
  - apply (proj2 (proj2 (sequence_map_parse _ _ _ _))
             (IntNode "1") [Tok Plus "+" (at_column 2)] (IntNode "2") []);
      reflexivity.
Defined.


Lemma Built_success_consumes_witness :
  parse (sequence_right (ignore LeftParen) (token Int int_node))
    [Tok LeftParen "(" (at_column 1); Tok Int "7" (at_column 2);
     Tok RightParen ")" (at_column 3)]
    = Return (ParsingSuccess (IntNode "7") [Tok RightParen ")" (at_column 3)])
  /\ length [Tok RightParen ")" (at_column 3)]
     < length [Tok LeftParen "(" (at_column 1); Tok Int "7" (at_column 2);
               Tok RightParen ")" (at_column 3)].
Proof.
  split; [reflexivity|].
  apply (Built_success_consumes
           (sequence_right (ignore LeftParen) (token Int int_node)) _
           (IntNode "7")).
  - apply Built_sequence_right; [apply Built_ignore|apply Built_token].
  - reflexivity.
Defined.

Lemma Built_failure_reports_witness :
  [Int; LeftParen] <> [] /\
  (Tok Plus "+" (at_column 1) = EOF \/
   Tok Plus "+" (at_column 1) ∈ [Tok Plus "+" (at_column 1)]).
Proof.
  apply (Built_failure_reports
           (alt (singleton Int 0) (singleton LeftParen 1))
           [Tok Plus "+" (at_column 1)]).
  - apply Built_alt; apply Built_singleton.
  - reflexivity.
Defined.


Lemma increment_location_counts_witness :
  (_increment_location 1 1 "1 * (2").2 = 1 + String.length "1 * (2" /\
  1 <= (_increment_location 3 1 (String "010" "ab")).2.
Proof.
  split.
  - apply (proj1 (proj2 (increment_location_counts 1 1 "1 * (2"))).
    reflexivity.
  - apply (proj2 (proj2 (increment_location_counts 3 1 (String "010" "ab")))).
    lia.
Defined.

Lemma run_skips_leaves_unskippable_witness :
  _run_skips re_match 2 lexer 1 1 "  1" = Some (1, 3, "1") /\
  unskippable re_match lexer "1".
Proof.
  split; [reflexivity|].
  apply (run_skips_leaves_unskippable re_match 2 lexer 1 1 "  1" 1 3 "1").
  reflexivity.
Defined.

Lemma run_skips_consumes_front_witness :
  exists skipped,
    "  1" = skipped +:+ "1" /\ _increment_location 1 1 skipped = (1, 3).
Proof.
  apply (run_skips_consumes_front re_match re_match_at_start 2 lexer).
  reflexivity.
Defined.

Lemma first_matching_pattern_wins_witness :
  exists more,
    lex_tokens
      (match_phase re_match
         (add_regex (add_regex Lexer_init Int "\d+") Plus "\s+")
         "<stdin>" [] 1 1 " 1")
      = [] ++ Tok Plus " " (at_column 1) :: more.
Proof.
  apply (first_matching_pattern_wins re_match
           (add_regex (add_regex Lexer_init Int "\d+") Plus "\s+")
           "<stdin>" [] 1 1 " 1" [(Int, "^(\d+)")] Plus "^(\s+)" []).
  - reflexivity.
  - repeat constructor.
  - reflexivity.
Defined.

Lemma first_matching_literal_wins_witness :
  lex_tokens (match_phase re_match lexer "<stdin>" [] 1 1 "*3")
    = [] ++ [Tok Times "*" (at_column 1)] /\
  lex_code (match_phase re_match lexer "<stdin>" [] 1 1 "*3")
    = str_from (String.length "*") "*3".
Proof.
  apply (first_matching_literal_wins re_match lexer "<stdin>" [] 1 1 "*3"
           [(Plus, "+")] Times "*" [(LeftParen, "("); (RightParen, ")")]).
  - repeat constructor.
  - reflexivity.
  - repeat constructor.
  - reflexivity.
Defined.

Lemma lex_tokens_from_rules_witness :
  Forall (from_rule re_match lexer)
    [Tok Int "1" (at_column 1); Tok Plus "+" (at_column 2);
     Tok Int "2" (at_column 3)].
Proof.
  apply (lex_tokens_from_rules re_match 4 lexer "<stdin>" "1+2").
  reflexivity.
Defined.

Lemma lex_tokens_located_witness :
  Forall (located "<stdin>" "1 +2")
    [Tok Int "1" (at_column 1); Tok Plus "+" (at_column 3);
     Tok Int "2" (at_column 4)].
Proof.
  apply (lex_tokens_located re_match re_match_at_start 5 lexer "<stdin>"
           "1 +2").
  reflexivity.
Defined.

Lemma lex_error_points_at_character_witness :
  exists before char after,
    "1 $ 2" = before +:+ String char after /\
    at_column 3
      = {| file := "<stdin>";
           line := (_increment_location 1 1 before).1;
           column := (_increment_location 1 1 before).2 |} /\
    "SYNTAX ERROR: Invalid character: '$'"
      = "SYNTAX ERROR: Invalid character: '" +:+ String char "'" /\
    unskippable re_match lexer (String char after) /\
    unmatched re_match lexer (String char after).
Proof.
  apply (lex_error_points_at_character re_match re_match_at_start 5 lexer
           "<stdin>" "1 $ 2").
  reflexivity.
Defined.

Lemma registration_keeps_other_types_witness :
  dict_get (regexes (add_regex lexer Plus "\s+")) Int = Some "^(\d+)" /\
  dict_get (strings (add_str lexer Plus "plus")) Times = Some "*".
Proof.
  destruct (proj1 (proj2 (proj2 (registration_keeps_other_types
                                   lexer Plus "\s+"))) Int) as [Hr _];
    [discriminate|].
  destruct (proj1 (proj2 (proj2 (registration_keeps_other_types
                                   lexer Plus "plus"))) Times) as [_ Hs];
    [discriminate|].
  split; [exact Hr|exact Hs].
Defined.

Lemma lexer_configured : configured lexer.
Proof. unfold lexer. repeat constructor. Qed.

Lemma configured_one_rule_per_type_witness :
  NoDup (regexes lexer).*1 /\ NoDup (strings lexer).*1.
Proof. exact (configured_one_rule_per_type lexer lexer_configured). Defined.

Lemma configured_patterns_are_groups_witness :
  Forall (fun item : TokenType * string =>
            exists regex, item.2 = "^(" +:+ regex +:+ ")")
    (regexes lexer) /\
  Forall (fun skip => exists regex, skip = "^(" +:+ regex +:+ ")")
    (regex_skips lexer).
Proof. exact (configured_patterns_are_groups lexer lexer_configured). Defined.




Lemma to_c_name_fixed_witness :
  to_c_name "lisp_name" = "lisp_name" /\
  all_chars kept "lispName" = true.
Proof.
  split.
  - apply (proj2 (to_c_name_fixed "lisp_name")). reflexivity.
  - apply (proj1 (to_c_name_fixed "lispName")). reflexivity.
Defined.

Lemma to_c_name_injective_witness :
  to_c_name "lisp-name" = "lisp_45name" /\ "lisp-name" = "lisp-name".
Proof.
  split; [reflexivity|].
  apply (proj1 (to_c_name_injective "lisp-name" "lisp-name")). reflexivity.
Defined.
